(** * autobrr: the readarr push client and the PolishTracker announce definition

    A shallow embedding of [pkg/arr/readarr/readarr.go] (client construction,
    [Test], [Push]) and of the PolishTracker indexer definition (its announce
    pattern, variable names and [torrenturl] template), with the properties
    the specification states about them. *)

From Stdlib Require Import ZArith String Ascii List Lia.
From Stdlib Require Import Strings.Byte.
From stdpp Require Import base strings gmap.

Local Open Scope string_scope.
Local Open Scope Z_scope.

(** ** Go runtime values used by the client *)

Module Go.

(** [int64] arithmetic wraps around. *)
Definition wrap64 (z : Z) : Z := (z + 2 ^ 63) mod 2 ^ 64 - 2 ^ 63.

Definition mul64 (a b : Z) : Z := wrap64 (a * b).

(** [time.Duration] is an [int64] count of nanoseconds. *)
Definition Nanosecond : Z := 1.
Definition Microsecond : Z := mul64 1000 Nanosecond.
Definition Millisecond : Z := mul64 1000 Microsecond.
Definition Second : Z := mul64 1000 Millisecond.
Definition Minute : Z := mul64 60 Second.

Definition StatusBadRequest : Z := 400.
Definition StatusUnauthorized : Z := 401.

(** [log] flags. *)
Definition Ldate : Z := Z.shiftl 1 0.
Definition Ltime : Z := Z.shiftl 1 1.
Definition LstdFlags : Z := Z.lor Ldate Ltime.

(** The line feed that ends the client's log formats. *)
Definition nl : string := String "010"%char EmptyString.

(** [[]byte]; [string(b)] converts without change. *)
Definition bytes : Type := list byte.
Definition string_of_bytes (b : bytes) : string := string_of_list_byte b.

(** [strings.Join]. *)
Fixpoint Join (elems : list string) (sep : string) : string :=
  match elems with
  | [] => ""
  | [s] => s
  | s :: rest => s +:+ sep +:+ Join rest sep
  end.

End Go.

(** ** Errors of [pkg/errors] *)

Inductive error : Type :=
| errors_New (msg : string)
| errors_Wrap (cause : error) (msg : string).

(** ** Loggers and the journal they write *)

Inductive Writer : Type :=
| io_Discard
| io_Stream (fd : nat).

Record Logger : Type := mkLogger {
  out : Writer;
  prefix : string;
  flag : Z
}.

Definition log_New (w : Writer) (p : string) (f : Z) : Logger :=
  {| out := w; prefix := p; flag := f |}.

(** An argument of a [Printf] call. *)
Inductive Value : Type :=
| VInt (z : Z)
| VString (s : string).

Record Entry : Type := mkEntry {
  stream : nat;
  format : string;
  args : list Value
}.

Definition Journal : Type := list Entry.

(** A call either panics or returns a value and the journal so far. *)
Inductive Result (A : Type) : Type :=
| Panic (reason : string)
| Return (a : A) (j : Journal).

Arguments Panic {A} reason.
Arguments Return {A} a j.

Definition M (A : Type) : Type := Journal -> Result A.

Definition ret {A} (a : A) : M A := fun j => Return a j.

Definition bind {A B} (m : M A) (k : A -> M B) : M B :=
  fun j => match m j with
           | Panic r => Panic r
           | Return a j' => k a j'
           end.

#[global] Instance M_ret : MRet M := @ret.
#[global] Instance M_bind : MBind M := fun A B k m => bind m k.

(** [Printf] of a [log.Logger] pointer: a nil receiver is dereferenced; a
    logger on [io.Discard] writes nothing. *)
Definition Printf (l : option Logger) (fmt : string) (a : list Value) : M unit :=
  fun j =>
    match l with
    | None => Panic "invalid memory address or nil pointer dereference"
    | Some lg =>
        match out lg with
        | io_Discard => Return tt j
        | io_Stream fd => Return tt (j ++ [mkEntry fd fmt a])%list
        end
    end.

(** ** The client's data *)

(** [sharedhttp.Transport], the process-wide round tripper. *)
Inductive RoundTripper : Type := sharedhttp_Transport.

Record http_Client : Type := mkHttpClient {
  Timeout : Z;
  Transport : RoundTripper
}.

Module Config.
Record t : Type := mk {
  Hostname : string;
  APIKey : string;
  BasicAuth : bool;
  Username : string;
  Password : string;
  Log : option Logger
}.
End Config.

Module Client.
Record t : Type := mk {
  config : Config.t;
  http : http_Client;
  Log : option Logger
}.
End Client.

(** [New] creates a new readarr client. *)
Definition New (config : Config.t) : Client.t :=
  let httpClient :=
    {| Timeout := Go.mul64 Go.Second 120; Transport := sharedhttp_Transport |} in
  let c :=
    {| Client.config := config;
       Client.http := httpClient;
       Client.Log := Some (log_New io_Discard "" Go.LstdFlags) |} in
  match Config.Log config with
  | Some l =>
      {| Client.config := Client.config c;
         Client.http := Client.http c;
         Client.Log := Some l |}
  | None => c
  end.

(** Modelled from the spec: the response type of the normal-status push
    answer, declared outside the given sources: "a normal-status object
    carrying an optional rejection flag and reasons list".  Only the two
    fields [Push] reads are kept; [None] is the nil slice. *)
Record PushResponse : Type := mkPushResponse {
  Rejected : bool;
  Rejections : option (list string)
}.

(** What the client calls but the given sources do not define: the request
    helpers [get] and [postBody], the types [Release], [BadRequestResponse]
    and [SystemStatusResponse] with the methods used on them, and
    [json.Unmarshal] at the three target types.  The bad-request answer is
    decoded into a slice of pointers, [None] being the nil pointer;
    [BadRequestResponse_String] is the method on a receiver that is not
    nil. *)
Class Collaborators : Type := {
  Release : Type;
  Title : Release -> string;
  BadRequestResponse : Type;
  BadRequestResponse_String : BadRequestResponse -> string;
  SystemStatusResponse : Type;
  get : Client.t -> string -> Z * Go.bytes * option error;
  postBody : Client.t -> string -> Release -> Z * Go.bytes * option error;
  Unmarshal_BadRequestResponses :
    Go.bytes -> list (option BadRequestResponse) + error;
  Unmarshal_PushResponse : Go.bytes -> PushResponse + error;
  Unmarshal_SystemStatusResponse : Go.bytes -> SystemStatusResponse + error
}.

Section ClientMethods.

Context `{Collaborators}.

(** The loop of [Push] over the decoded rejection objects; the method
    reads the fields of its receiver, so a nil one is dereferenced. *)
Fixpoint describe (responses : list (option BadRequestResponse))
    (rejections : list string) : M (list string) :=
  match responses with
  | [] => mret rejections
  | None :: _ =>
      fun _ => Panic "invalid memory address or nil pointer dereference"
  | Some response :: rest =>
      describe rest (rejections ++ [BadRequestResponse_String response])%list
  end.

Definition Test (c : Client.t)
  : M (option SystemStatusResponse * option error) :=
  let '(status, res, err) := get c "system/status" in
  match err with
  | Some e => ret (None, Some (errors_Wrap e "could not make Test"))
  | None =>
      if status =? Go.StatusUnauthorized
      then ret (None, Some (errors_New "unauthorized: bad credentials"))
      else
        Printf (Client.Log c)
          ("readarr system/status status: (%v) response: %v" +:+ Go.nl)
          [VInt status; VString (Go.string_of_bytes res)] ;;
        match Unmarshal_SystemStatusResponse res with
        | inr e => ret (None, Some (errors_Wrap e "could not unmarshal data"))
        | inl response => ret (Some response, None)
        end
  end.

Definition Push (c : Client.t) (release : Release)
  : M (option (list string) * option error) :=
  let '(status, res, err) := postBody c "release/push" release in
  match err with
  | Some e =>
      ret (None, Some (errors_Wrap e "could not push release to readarr"))
  | None =>
      Printf (Client.Log c)
        ("readarr release/push status: (%v) response: %v" +:+ Go.nl)
        [VInt status; VString (Go.string_of_bytes res)] ;;
      if status =? Go.StatusBadRequest
      then
        match Unmarshal_BadRequestResponses res with
        | inr e => ret (None, Some (errors_Wrap e "could not unmarshal data"))
        | inl badRequestResponses =>
            rejections ← describe badRequestResponses [];
            ret (Some rejections, None)
        end
      else
        match Unmarshal_PushResponse res with
        | inr e => ret (None, Some (errors_Wrap e "could not unmarshal data"))
        | inl pushResponse =>
            if Rejected pushResponse
            then
              let rejections :=
                Go.Join (default [] (Rejections pushResponse)) ", " in
              Printf (Client.Log c)
                ("readarr release/push rejected %v reasons: %q" +:+ Go.nl)
                [VString (Title release); VString rejections] ;;
              ret (Rejections pushResponse, None)
            else ret (None, None)
        end
  end.

End ClientMethods.

(** ** Regular expressions of announce patterns *)

Module Regex.

(** The constructs the indexer definitions' patterns are written with;
    capture groups are numbered from 0 in the order of their opening
    parenthesis. *)
Inductive regex : Type :=
| Lit (c : ascii)
| AnyChar
| Digit
| Seq (r1 r2 : regex)
| Eps
| Alt (r1 r2 : regex)
| Star (r : regex)
| Plus (r : regex)
| Opt (r : regex)
| Group (i : nat) (r : regex).

Definition is_digit (c : ascii) : bool :=
  let n := nat_of_ascii c in (48 <=? n)%nat && (n <=? 57)%nat.

Definition is_letter (c : ascii) : bool :=
  let n := nat_of_ascii c in
  ((65 <=? n)%nat && (n <=? 90)%nat) || ((97 <=? n)%nat && (n <=? 122)%nat).

Definition is_newline (c : ascii) : bool := Ascii.eqb c "010"%char.

(** Characters with a meaning of their own in a pattern. *)
Definition is_meta (c : ascii) : bool :=
  existsb (Ascii.eqb c)
    ["\"; "("; ")"; "|"; "*"; "+"; "?"; "."; "["; "]"; "{"; "}"; "^"; "$"]%char.

(** *** Compiling the pattern text *)

Definition parsed : Type := regex * string * nat.

Section Atoms.

(** The parser of a whole alternation, for the inside of a group. *)
Variable parse_alt_rec : string -> nat -> option parsed.

Definition parse_atom (p : string) (g : nat) : option parsed :=
  match p with
  | EmptyString => None
  | String c rest =>
      if Ascii.eqb c "("%char then
        match parse_alt_rec rest (S g) with
        | Some (r, String c' rest', g') =>
            if Ascii.eqb c' ")"%char then Some (Group g r, rest', g') else None
        | _ => None
        end
      else if Ascii.eqb c "\"%char then
        match rest with
        | EmptyString => None
        | String e rest' =>
            if Ascii.eqb e "d"%char then Some (Digit, rest', g)
            else if is_letter e || is_digit e then None
            else Some (Lit e, rest', g)
        end
      else if Ascii.eqb c "."%char then Some (AnyChar, rest, g)
      else if is_meta c then None
      else Some (Lit c, rest, g)
  end.

(** An atom with at most one repetition operator after it. *)
Definition parse_rep (p : string) (g : nat) : option parsed :=
  match parse_atom p g with
  | Some (r, String q rest, g') =>
      if Ascii.eqb q "*"%char then Some (Star r, rest, g')
      else if Ascii.eqb q "+"%char then Some (Plus r, rest, g')
      else if Ascii.eqb q "?"%char then Some (Opt r, rest, g')
      else Some (r, String q rest, g')
  | other => other
  end.

(** A sequence runs up to the end, a [|] or a closing parenthesis. *)
Fixpoint parse_seq (fuel : nat) (p : string) (g : nat) : option parsed :=
  match p with
  | EmptyString => Some (Eps, p, g)
  | String c _ =>
      if Ascii.eqb c "|"%char || Ascii.eqb c ")"%char then Some (Eps, p, g)
      else
        match fuel with
        | O => None
        | S fuel' =>
            match parse_rep p g with
            | Some (r, rest, g') =>
                match parse_seq fuel' rest g' with
                | Some (Eps, rest', g'') => Some (r, rest', g'')
                | Some (r', rest', g'') => Some (Seq r r', rest', g'')
                | None => None
                end
            | None => None
            end
        end
  end.

Fixpoint parse_alts (fuel : nat) (p : string) (g : nat) : option parsed :=
  match parse_seq (String.length p) p g with
  | Some (r, String c rest, g') =>
      if Ascii.eqb c "|"%char then
        match fuel with
        | O => None
        | S fuel' =>
            match parse_alts fuel' rest g' with
            | Some (r', rest', g'') => Some (Alt r r', rest', g'')
            | None => None
            end
        end
      else Some (r, String c rest, g')
  | other => other
  end.

End Atoms.

Fixpoint parse_alt (depth : nat) (p : string) (g : nat) : option parsed :=
  match depth with
  | O => None
  | S depth' => parse_alts (parse_alt depth') (String.length p) p g
  end.

(** Modelled from the spec: the compilation of a pattern by the
    regular-expression engine, which is not part of the given sources ("a
    regular-expression engine supporting named/positional capture groups").
    It gives the compiled pattern and the number of its capture groups;
    text outside the constructs above does not compile. *)
Definition compile (p : string) : option (regex * nat) :=
  match parse_alt (S (String.length p)) p 0%nat with
  | Some (r, EmptyString, g) => Some (r, g)
  | _ => None
  end.

(** *** Matching, with backtracking in the order of preference *)

Definition captures : Type := list string.

(** The text consumed between the suffix [s] and its own suffix [s']. *)
Definition consumed (s s' : string) : string :=
  substring 0 (String.length s - String.length s') s.

Fixpoint run (r : regex) (s : string) (c : captures)
    (k : string -> captures -> option captures) {struct r} : option captures :=
  match r with
  | Lit a =>
      match s with
      | String b s' => if Ascii.eqb a b then k s' c else None
      | EmptyString => None
      end
  | AnyChar =>
      match s with
      | String b s' => if is_newline b then None else k s' c
      | EmptyString => None
      end
  | Digit =>
      match s with
      | String b s' => if is_digit b then k s' c else None
      | EmptyString => None
      end
  | Eps => k s c
  | Seq r1 r2 => run r1 s c (fun s' c' => run r2 s' c' k)
  | Alt r1 r2 =>
      match run r1 s c k with
      | Some res => Some res
      | None => run r2 s c k
      end
  | Star r1 =>
      (fix loop (n : nat) (s : string) (c : captures) : option captures :=
         match n with
         | O => k s c
         | S n' =>
             match run r1 s c
                     (fun s' c' =>
                        if (String.length s' <? String.length s)%nat
                        then loop n' s' c' else None) with
             | Some res => Some res
             | None => k s c
             end
         end) (String.length s) s c
  | Plus r1 =>
      run r1 s c
        ((fix loop (n : nat) (s : string) (c : captures) : option captures :=
           match n with
           | O => k s c
           | S n' =>
               match run r1 s c
                       (fun s' c' =>
                          if (String.length s' <? String.length s)%nat
                          then loop n' s' c' else None) with
               | Some res => Some res
               | None => k s c
               end
           end) (String.length s))
  | Opt r1 =>
      match run r1 s c k with
      | Some res => Some res
      | None => k s c
      end
  | Group i r1 =>
      run r1 s c (fun s' c' => k s' (<[ i := consumed s s' ]> c'))
  end.

(** The match starting at the first position of [s]. *)
Definition match_here (r : regex) (groups : nat) (s : string) : option captures :=
  run r s (replicate groups EmptyString) (fun _ c => Some c).

(** Modelled from the spec: the search of the regular-expression engine,
    which is not part of the given sources: the leftmost match anywhere in
    the line, since "anchoring [is] entirely [a property] of the pattern
    text". *)
Fixpoint find (r : regex) (groups : nat) (s : string) : option captures :=
  match match_here r groups s with
  | Some c => Some c
  | None =>
      match s with
      | EmptyString => None
      | String _ s' => find r groups s'
      end
  end.

(** The literal text every match of [r] begins with. *)
Fixpoint leading (r : regex) : string :=
  match r with
  | Lit c => String c EmptyString
  | Seq r1 r2 =>
      match r1 with
      | Lit c => String c (leading r2)
      | _ => EmptyString
      end
  | _ => EmptyString
  end.

End Regex.

(** ** Templates of derived fields *)

Module Template.

(** A template is literal text with placeholders that name a captured
    variable or a setting. *)
Inductive piece : Type :=
| Text (s : string)
| Ref (name : string).

Definition is_space (c : ascii) : bool := Ascii.eqb c " "%char.

Definition is_name_char (c : ascii) : bool :=
  Regex.is_letter c || Regex.is_digit c || Ascii.eqb c "_"%char.

Fixpoint skip_spaces (s : string) : string :=
  match s with
  | String c rest => if is_space c then skip_spaces rest else s
  | EmptyString => s
  end.

(** The longest name at the head of [s], and what follows it. *)
Fixpoint read_name (s : string) : string * string :=
  match s with
  | String c rest =>
      if is_name_char c
      then let '(n, rest') := read_name rest in (String c n, rest')
      else (EmptyString, s)
  | EmptyString => (EmptyString, s)
  end.

(** The placeholder whose opening braces have just been read: spaces, a
    dot, the name, spaces and the closing braces. *)
Definition parse_ref (s : string) : option (string * string) :=
  match skip_spaces s with
  | String d rest =>
      if Ascii.eqb d "."%char then
        match read_name rest with
        | (EmptyString, _) => None
        | (n, rest') =>
            match skip_spaces rest' with
            | String c1 (String c2 rest'') =>
                if Ascii.eqb c1 "}"%char && Ascii.eqb c2 "}"%char
                then Some (n, rest'') else None
            | _ => None
            end
        end
      else None
  | EmptyString => None
  end.

Definition push_char (c : ascii) (ps : list piece) : list piece :=
  match ps with
  | Text t :: ps' => Text (String c t) :: ps'
  | _ => Text (String c EmptyString) :: ps
  end.

Fixpoint parse_pieces (fuel : nat) (s : string) : option (list piece) :=
  match s with
  | EmptyString => Some []
  | String c rest =>
      match fuel with
      | O => None
      | S fuel' =>
          match rest with
          | String c' rest' =>
              if Ascii.eqb c "{"%char && Ascii.eqb c' "{"%char then
                match parse_ref rest' with
                | Some (n, after) =>
                    match parse_pieces fuel' after with
                    | Some ps => Some (Ref n :: ps)
                    | None => None
                    end
                | None => None
                end
              else
                match parse_pieces fuel' rest with
                | Some ps => Some (push_char c ps)
                | None => None
                end
          | EmptyString => Some [Text (String c EmptyString)]
          end
      end
  end.

Definition parse (t : string) : option (list piece) :=
  parse_pieces (String.length t) t.

Definition refs (ps : list piece) : list string :=
  omap (fun p => match p with Ref n => Some n | Text _ => None end) ps.

(** A placeholder takes the captured variable of its name, else the
    setting of its name, else the empty string. *)
Definition expand (variables settings : gmap string string) (p : piece) : string :=
  match p with
  | Text s => s
  | Ref n =>
      match variables !! n with
      | Some v => v
      | None => default EmptyString (settings !! n)
      end
  end.

Definition expand_all (variables settings : gmap string string)
    (ps : list piece) : string :=
  fold_right (fun p acc => expand variables settings p +:+ acc) EmptyString ps.

Inductive RenderError : Type := MalformedTemplate (t : string).

(** Modelled from the spec: the Template Renderer, which is not part of
    the given sources: [render(template, variables, settings)] "expands
    every placeholder ... left-to-right; a placeholder referencing a
    variable absent from [variables] ... substitutes the empty string,
    never errors". *)
Definition render (template : string) (variables settings : gmap string string)
  : string + RenderError :=
  match parse template with
  | Some ps => inl (expand_all variables settings ps)
  | None => inr (MalformedTemplate template)
  end.

End Template.

(** ** Indexer definitions, their validation and the line matcher *)

Module Indexer.

(** One entry of [parse.lines]: example lines, the pattern and the names
    of its capture groups, in order. *)
Record Line : Type := mkLine {
  test : list string;
  pattern : string;
  vars : list string
}.

Inductive SettingType : Type := text | secret.

Record Setting : Type := mkSetting {
  type : SettingType;
  required : bool;
  default_value : option string
}.

Record definition : Type := mkDefinition {
  identifier : string;
  patterns : list Line;
  matchTemplates : gmap string string;
  settingsSchema : gmap string Setting
}.

Inductive DefinitionError : Type :=
| PatternDoesNotCompile (index : nat)
| GroupCountMismatch (index groups names : nat)
| MalformedTemplate (field : string)
| UnresolvedPlaceholder (field name : string)
| DuplicateVariable (index : nat).

Record CompiledLine : Type := mkCompiledLine {
  re : Regex.regex;
  groups : nat;
  names : list string
}.

Record ValidDefinition : Type := mkValid {
  source : definition;
  compiled : list CompiledLine;
  templates : list (string * list Template.piece)
}.

(** (a) each pattern compiles. *)
Fixpoint compile_lines (index : nat) (ls : list Line)
  : list CompiledLine + DefinitionError :=
  match ls with
  | [] => inl []
  | l :: rest =>
      match Regex.compile (pattern l) with
      | None => inr (PatternDoesNotCompile index)
      | Some (r, g) =>
          match compile_lines (S index) rest with
          | inl cs => inl (mkCompiledLine r g (vars l) :: cs)
          | inr e => inr e
          end
      end
  end.

(** (b) as many capture groups as variable names. *)
Fixpoint check_arity (index : nat) (cs : list CompiledLine)
  : option DefinitionError :=
  match cs with
  | [] => None
  | c :: rest =>
      if (groups c =? length (names c))%nat
      then check_arity (S index) rest
      else Some (GroupCountMismatch index (groups c) (length (names c)))
  end.

(** (c) every placeholder names a declared variable or setting. *)
Fixpoint check_templates (declared : list string) (ts : list (string * string))
  : list (string * list Template.piece) + DefinitionError :=
  match ts with
  | [] => inl []
  | (field, t) :: rest =>
      match Template.parse t with
      | None => inr (MalformedTemplate field)
      | Some ps =>
          match filter (fun n => n ∉ declared) (Template.refs ps) with
          | n :: _ => inr (UnresolvedPlaceholder field n)
          | [] =>
              match check_templates declared rest with
              | inl done => inl ((field, ps) :: done)
              | inr e => inr e
              end
          end
      end
  end.

(** (d) no variable name twice in one pattern. *)
Fixpoint check_duplicates (index : nat) (cs : list CompiledLine)
  : option DefinitionError :=
  match cs with
  | [] => None
  | c :: rest =>
      if bool_decide (NoDup (names c))
      then check_duplicates (S index) rest
      else Some (DuplicateVariable index)
  end.

Definition declared_names (d : definition) : list string :=
  concat (map vars (patterns d)) ++ map fst (map_to_list (settingsSchema d)).

(** Modelled from the spec: the Definition Validator, which is not part
    of the given sources: "Checks, in order: (a) each pattern compiles
    ...; (b) capture-group count equals variable-name count ...; (c) every
    placeholder token in every template resolves to a declared variable or
    setting name; (d) no duplicate variable names within one pattern.
    Fails fast with a DefinitionError naming the first violation". *)
Definition validate (d : definition) : ValidDefinition + DefinitionError :=
  match compile_lines 0 (patterns d) with
  | inr e => inr e
  | inl cs =>
      match check_arity 0 cs with
      | Some e => inr e
      | None =>
          match check_templates (declared_names d)
                  (map_to_list (matchTemplates d)) with
          | inr e => inr e
          | inl ts =>
              match check_duplicates 0 cs with
              | Some e => inr e
              | None => inl (mkValid d cs ts)
              end
          end
      end
  end.

Inductive MatchOutcome : Type :=
| Matched (variables : gmap string string)
| NoMatch.

(** The capture groups zipped, in order, with the declared names. *)
Definition bind_variables (ns : list string) (caps : Regex.captures)
  : gmap string string :=
  list_to_map (zip ns caps).

Fixpoint first_match (cs : list CompiledLine) (line : string) : MatchOutcome :=
  match cs with
  | [] => NoMatch
  | c :: rest =>
      match Regex.find (re c) (groups c) line with
      | Some caps => Matched (bind_variables (names c) caps)
      | None => first_match rest line
      end
  end.

(** Modelled from the spec: the Line Matcher, which is not part of the
    given sources: "try each pattern in the Definition's declared order;
    the first pattern whose regular expression matches ... wins ...  On
    match, zip the ordered capture groups with the Definition's declared
    variable names ...  If no pattern matches, return NoMatch". *)
Definition match_line (v : ValidDefinition) (line : string) : MatchOutcome :=
  first_match (compiled v) line.

(** What handling one line of a definition as loaded comes to. *)
Inductive LineOutcome : Type :=
| Rejects (e : DefinitionError)
| Yields (m : MatchOutcome).

Definition process (d : definition) (line : string) : LineOutcome :=
  match validate d with
  | inr e => Rejects e
  | inl v => Yields (match_line v line)
  end.

End Indexer.

(** ** The PolishTracker definition *)

Module PolishTracker.

Import Indexer.

Definition lines : list Line :=
  [ {| test :=
         [ "::: PolishTracker :::  Torrent ( Some.Movie.2017.PLSUB.1080p.BDRip.x264-GROUP )  ||  Kategoria: ( movies HD )  ||  Rozmiar: ( 2.14 GB )  ||  Link: ( https://pte.nu/torrents/000000 )  ||  Wiecej: ( http://www.filmweb.pl/film?id=000000 )";
           "::: PolishTracker :::  Torrent ( Some.Other.Movie.1985.iNTERNAL.BDRip.x264-GROUP )  ||  Kategoria: ( movies SD )  ||  Rozmiar: ( 1.15 GB )  ||  Link: ( https://pte.nu/torrents/000000 )";
           "::: PolishTracker :::  Torrent ( Some.Other.Movie.1985.iNTERNAL.720p.BluRay.x264-GROUP )  ||  Kategoria: ( movies HD )  ||  Rozmiar: ( 5.02 GB )  ||  Link: ( https://pte.nu/torrents/000000 )" ];
       pattern :=
         "::: PolishTracker :::  Torrent \( (.*) \)  \|\|  Kategoria: \( (.*) \)  \|\|  Rozmiar: \( (.*) \)  \|\|  Link: \( (https://.*)/torrents/(\d+) \)";
       vars := ["torrentName"; "category"; "torrentSize"; "baseUrl"; "torrentId"] |} ].

Definition torrenturl : string :=
  "{{ .baseUrl }}/downrss/{{ .rsskey }}/{{ .torrentId }}".

Definition polishtracker : definition :=
  {| identifier := "polishtracker";
     patterns := lines;
     matchTemplates := {[ "torrenturl" := torrenturl ]};
     settingsSchema :=
       {[ "rsskey" := {| type := secret; required := false; default_value := None |} ]} |}.

(** The text every announce of the tracker's bot starts with. *)
Definition banner : string := "::: PolishTracker :::".

(** Whether [needle] occurs in [s]. *)
Fixpoint contains (s needle : string) : bool :=
  String.prefix needle s ||
  match s with
  | String _ rest => contains rest needle
  | EmptyString => false
  end.

(** The announce line as the specification prints it, with one space
    between its parts. *)
Definition documented_line : string :=
  "::: PolishTracker ::: Torrent ( Some.Movie.2017.PLSUB.1080p.BDRip.x264-GROUP ) || Kategoria: ( movies HD ) || Rozmiar: ( 2.14 GB ) || Link: ( https://pte.nu/torrents/000000 )".

(** The same announce as the bot sends it and as the definition's
    examples have it, with two spaces between its parts. *)
Definition announced_line : string :=
  "::: PolishTracker :::  Torrent ( Some.Movie.2017.PLSUB.1080p.BDRip.x264-GROUP )  ||  Kategoria: ( movies HD )  ||  Rozmiar: ( 2.14 GB )  ||  Link: ( https://pte.nu/torrents/000000 )".

Definition documented_variables : gmap string string :=
  list_to_map
    [ ("torrentName", "Some.Movie.2017.PLSUB.1080p.BDRip.x264-GROUP");
      ("category", "movies HD");
      ("torrentSize", "2.14 GB");
      ("baseUrl", "https://pte.nu");
      ("torrentId", "000000") ].

Definition documented_groups : list string :=
  [ "Some.Movie.2017.PLSUB.1080p.BDRip.x264-GROUP"; "movies HD"; "2.14 GB";
    "https://pte.nu"; "000000" ].

End PolishTracker.

(** ** A reader for the JSON of recorded responses

    [json.Unmarshal] belongs to Go's library and stays a parameter of the
    client.  The reader below instantiates it for recorded response bodies:
    it reads objects, arrays, strings with the single-character escapes,
    numbers and the three literals.  It does not read [\u] escapes. *)

Module Json.

Unset Elimination Schemes.

Inductive value : Type :=
| Null
| Bool (b : bool)
| Number (text : string)
| Str (s : string)
| Arr (items : list value)
| Obj (members : list (string * value)).

Set Elimination Schemes.

Definition is_ws (c : ascii) : bool :=
  existsb (Ascii.eqb c) [" "; "009"; "010"; "013"]%char.

Fixpoint skip_ws (s : string) : string :=
  match s with
  | String c rest => if is_ws c then skip_ws rest else s
  | EmptyString => s
  end.

Definition quote : ascii := "034"%char.

Definition unescape (c : ascii) : option ascii :=
  if Ascii.eqb c quote then Some quote
  else if Ascii.eqb c "\"%char then Some "\"%char
  else if Ascii.eqb c "/"%char then Some "/"%char
  else if Ascii.eqb c "b"%char then Some "008"%char
  else if Ascii.eqb c "f"%char then Some "012"%char
  else if Ascii.eqb c "n"%char then Some "010"%char
  else if Ascii.eqb c "r"%char then Some "013"%char
  else if Ascii.eqb c "t"%char then Some "009"%char
  else None.

(** The string whose opening quote has just been read. *)
Fixpoint read_string (s : string) : option (string * string) :=
  match s with
  | EmptyString => None
  | String c rest =>
      if Ascii.eqb c quote then Some (EmptyString, rest)
      else if (nat_of_ascii c <? 32)%nat then None
      else if Ascii.eqb c "\"%char then
        match rest with
        | String e rest' =>
            match unescape e, read_string rest' with
            | Some a, Some (t, after) => Some (String a t, after)
            | _, _ => None
            end
        | EmptyString => None
        end
      else
        match read_string rest with
        | Some (t, after) => Some (String c t, after)
        | None => None
        end
  end.

Fixpoint read_digits (s : string) : string * string :=
  match s with
  | String c rest =>
      if Regex.is_digit c
      then let '(d, after) := read_digits rest in (String c d, after)
      else (EmptyString, s)
  | EmptyString => (EmptyString, s)
  end.

Definition read_sign (signs : list ascii) (s : string) : string * string :=
  match s with
  | String c rest =>
      if existsb (Ascii.eqb c) signs
      then (String c EmptyString, rest) else (EmptyString, s)
  | EmptyString => (EmptyString, s)
  end.

(** A number: sign, integer part without a leading zero, fraction and
    exponent. *)
Definition read_number (s : string) : option (string * string) :=
  let '(sign, s1) := read_sign ["-"%char] s in
  match read_digits s1 with
  | (EmptyString, _) => None
  | (int, s2) =>
      if String.prefix "0" int && (1 <? String.length int)%nat then None
      else
        let frac :=
          match s2 with
          | String c s3 =>
              if Ascii.eqb c "."%char then
                match read_digits s3 with
                | (EmptyString, _) => None
                | (d, s4) => Some (String c d, s4)
                end
              else Some (EmptyString, s2)
          | EmptyString => Some (EmptyString, s2)
          end in
        match frac with
        | None => None
        | Some (f, s5) =>
            match s5 with
            | String c s6 =>
                if Ascii.eqb c "e"%char || Ascii.eqb c "E"%char then
                  let '(esign, s7) := read_sign ["+"; "-"]%char s6 in
                  match read_digits s7 with
                  | (EmptyString, _) => None
                  | (d, s8) =>
                      Some (sign +:+ int +:+ f +:+ String c esign +:+ d, s8)
                  end
                else Some (sign +:+ int +:+ f, s5)
            | EmptyString => Some (sign +:+ int +:+ f, s5)
            end
        end
  end.

Definition expect (word : string) (v : value) (s : string)
  : option (value * string) :=
  if String.prefix word s
  then Some (v, substring (String.length word)
                  (String.length s - String.length word) s)
  else None.

Fixpoint read_value (fuel : nat) (s : string) : option (value * string) :=
  match fuel with
  | O => None
  | S fuel' =>
      match skip_ws s with
      | EmptyString => None
      | String c rest as s0 =>
          if Ascii.eqb c "n"%char then expect "null" Null s0
          else if Ascii.eqb c "t"%char then expect "true" (Bool true) s0
          else if Ascii.eqb c "f"%char then expect "false" (Bool false) s0
          else if Ascii.eqb c quote then
            match read_string rest with
            | Some (t, after) => Some (Str t, after)
            | None => None
            end
          else if Ascii.eqb c "["%char then
            match skip_ws rest with
            | String c' after =>
                if Ascii.eqb c' "]"%char then Some (Arr [], after)
                else
                  match read_items fuel' rest with
                  | Some (vs, after') => Some (Arr vs, after')
                  | None => None
                  end
            | EmptyString => None
            end
          else if Ascii.eqb c "{"%char then
            match skip_ws rest with
            | String c' after =>
                if Ascii.eqb c' "}"%char then Some (Obj [], after)
                else
                  match read_members fuel' rest with
                  | Some (ms, after') => Some (Obj ms, after')
                  | None => None
                  end
            | EmptyString => None
            end
          else
            match read_number s0 with
            | Some (t, after) => Some (Number t, after)
            | None => None
            end
      end
  end

with read_items (fuel : nat) (s : string) : option (list value * string) :=
  match fuel with
  | O => None
  | S fuel' =>
      match read_value fuel' s with
      | Some (v, after) =>
          match skip_ws after with
          | String c after' =>
              if Ascii.eqb c "]"%char then Some ([v], after')
              else if Ascii.eqb c ","%char then
                match read_items fuel' after' with
                | Some (vs, after'') => Some (v :: vs, after'')
                | None => None
                end
              else None
          | EmptyString => None
          end
      | None => None
      end
  end

with read_members (fuel : nat) (s : string)
  : option (list (string * value) * string) :=
  match fuel with
  | O => None
  | S fuel' =>
      match skip_ws s with
      | String q rest =>
          if Ascii.eqb q quote then
            match read_string rest with
            | Some (key, after) =>
                match skip_ws after with
                | String colon after1 =>
                    if Ascii.eqb colon ":"%char then
                      match read_value fuel' after1 with
                      | Some (v, after2) =>
                          match skip_ws after2 with
                          | String c after3 =>
                              if Ascii.eqb c "}"%char
                              then Some ([(key, v)], after3)
                              else if Ascii.eqb c ","%char then
                                match read_members fuel' after3 with
                                | Some (ms, after4) =>
                                    Some ((key, v) :: ms, after4)
                                | None => None
                                end
                              else None
                          | EmptyString => None
                          end
                      | None => None
                      end
                    else None
                | EmptyString => None
                end
            | None => None
            end
          else None
      | EmptyString => None
      end
  end.

(** The whole body is one value, with white space around it. *)
Definition read (body : Go.bytes) : option value :=
  let s := Go.string_of_bytes body in
  match read_value (2 * String.length s + 2) s with
  | Some (v, after) =>
      match skip_ws after with
      | EmptyString => Some v
      | _ => None
      end
  | None => None
  end.

End Json.

(** ** Recorded responses: an instance of the collaborators *)

Module Fixture.

(** Modelled from the spec: the rejection object of a bad-request answer,
    declared outside the given sources: "a bad-request array of rejection
    objects (each exposing a human-readable description)". *)
Record Rejection : Type := mkRejection {
  propertyName : string;
  errorMessage : string
}.

Definition Rejection_String (r : Rejection) : string :=
  propertyName r +:+ ": " +:+ errorMessage r.

Record Status : Type := mkStatus { version : string }.

Record PushedRelease : Type := mkRelease { title : string }.

Definition lower (c : ascii) : ascii :=
  let n := nat_of_ascii c in
  if (65 <=? n)%nat && (n <=? 90)%nat then ascii_of_nat (n + 32) else c.

Fixpoint fold_case (s : string) : string :=
  match s with
  | String c rest => String (lower c) (fold_case rest)
  | EmptyString => EmptyString
  end.

(** Object keys match field names without regard to case. *)
Definition same_key (field key : string) : bool :=
  String.eqb (fold_case field) (fold_case key).

(** A string field: [null] leaves the field as it is. *)
Definition into_string (v : Json.value) (old : string) : option string :=
  match v with
  | Json.Str s => Some s
  | Json.Null => Some old
  | _ => None
  end.

Fixpoint into_strings (items : list Json.value) : option (list string) :=
  match items with
  | [] => Some []
  | v :: rest =>
      match into_string v EmptyString, into_strings rest with
      | Some s, Some l => Some (s :: l)
      | _, _ => None
      end
  end.

Fixpoint into_PushResponse (ms : list (string * Json.value))
    (r : PushResponse) : option PushResponse :=
  match ms with
  | [] => Some r
  | (key, v) :: rest =>
      if same_key "rejected" key then
        match v with
        | Json.Bool b => into_PushResponse rest (mkPushResponse b (Rejections r))
        | Json.Null => into_PushResponse rest r
        | _ => None
        end
      else if same_key "rejections" key then
        match v with
        | Json.Arr items =>
            match into_strings items with
            | Some l => into_PushResponse rest (mkPushResponse (Rejected r) (Some l))
            | None => None
            end
        | Json.Null => into_PushResponse rest (mkPushResponse (Rejected r) None)
        | _ => None
        end
      else into_PushResponse rest r
  end.

Fixpoint into_Rejection (ms : list (string * Json.value)) (r : Rejection)
  : option Rejection :=
  match ms with
  | [] => Some r
  | (key, v) :: rest =>
      if same_key "propertyName" key then
        match into_string v (propertyName r) with
        | Some s => into_Rejection rest (mkRejection s (errorMessage r))
        | None => None
        end
      else if same_key "errorMessage" key then
        match into_string v (errorMessage r) with
        | Some s => into_Rejection rest (mkRejection (propertyName r) s)
        | None => None
        end
      else into_Rejection rest r
  end.

Fixpoint into_Rejections (items : list Json.value)
  : option (list (option Rejection)) :=
  match items with
  | [] => Some []
  | v :: rest =>
      let element :=
        match v with
        | Json.Null => Some None
        | Json.Obj ms =>
            match into_Rejection ms (mkRejection EmptyString EmptyString) with
            | Some r => Some (Some r)
            | None => None
            end
        | _ => None
        end in
      match element, into_Rejections rest with
      | Some e, Some l => Some (e :: l)
      | _, _ => None
      end
  end.

Fixpoint into_Status (ms : list (string * Json.value)) (r : Status)
  : option Status :=
  match ms with
  | [] => Some r
  | (key, v) :: rest =>
      if same_key "version" key then
        match into_string v (version r) with
        | Some s => into_Status rest (mkStatus s)
        | None => None
        end
      else into_Status rest r
  end.

Definition syntax_error : error :=
  errors_New "invalid character or unexpected end of JSON input".

Definition type_error : error :=
  errors_New "json: cannot unmarshal value into Go value".

Definition unmarshal {A} (decode : Json.value -> option A) (body : Go.bytes)
  : A + error :=
  match Json.read body with
  | None => inr syntax_error
  | Some v =>
      match decode v with
      | Some a => inl a
      | None => inr type_error
      end
  end.

Definition decode_PushResponse : Go.bytes -> PushResponse + error :=
  unmarshal (fun v =>
    match v with
    | Json.Null => Some (mkPushResponse false None)
    | Json.Obj ms => into_PushResponse ms (mkPushResponse false None)
    | _ => None
    end).

Definition decode_Rejections
  : Go.bytes -> list (option Rejection) + error :=
  unmarshal (fun v =>
    match v with
    | Json.Null => Some []
    | Json.Arr items => into_Rejections items
    | _ => None
    end).

Definition decode_Status : Go.bytes -> Status + error :=
  unmarshal (fun v =>
    match v with
    | Json.Null => Some (mkStatus EmptyString)
    | Json.Obj ms => into_Status ms (mkStatus EmptyString)
    | _ => None
    end).

(** The collaborators of a client whose requests all get [answer]. *)
Definition collaborators (answer : Z * Go.bytes * option error)
  : Collaborators :=
  {| Release := PushedRelease;
     Title := title;
     BadRequestResponse := Rejection;
     BadRequestResponse_String := Rejection_String;
     SystemStatusResponse := Status;
     get := fun _ _ => answer;
     postBody := fun _ _ _ => answer;
     Unmarshal_BadRequestResponses := decode_Rejections;
     Unmarshal_PushResponse := decode_PushResponse;
     Unmarshal_SystemStatusResponse := decode_Status |}.

(** A recorded body, written with apostrophes for the quotes of JSON. *)
Fixpoint requote (s : string) : string :=
  match s with
  | String c rest =>
      String (if Ascii.eqb c "'"%char then Json.quote else c) (requote rest)
  | EmptyString => EmptyString
  end.

Definition body (text : string) : Go.bytes :=
  list_byte_of_string (requote text).

Definition config : Config.t :=
  {| Config.Hostname := "http://localhost:8787";
     Config.APIKey := "0123456789abcdef";
     Config.BasicAuth := false;
     Config.Username := "";
     Config.Password := "";
     Config.Log := None |}.

Definition logging_config : Config.t :=
  {| Config.Hostname := "http://localhost:8787";
     Config.APIKey := "0123456789abcdef";
     Config.BasicAuth := false;
     Config.Username := "";
     Config.Password := "";
     Config.Log := Some (log_New (io_Stream 2) "readarr " Go.LstdFlags) |}.

Definition release : PushedRelease := {| title := "Some.Book.2021.EPUB-GROUP" |}.

(** Recorded answers. *)
Definition answer : Type := Z * Go.bytes * option error.

Definition bad_request : answer :=
  (400, body "[{'propertyName': 'title', 'errorMessage': 'already in library'}]", None).

Definition rejected : answer :=
  (200, body "{'rejected': true, 'rejections': ['a','b']}", None).

Definition accepted : answer := (200, body "{'rejected': false}", None).


Definition denied : answer := (401, body "{'error': 'Unauthorized'}", None).

Definition truncated : answer := (200, body "{'rejected': tr", None).

Definition timed_out : answer :=
  (0, [], Some (errors_New "context deadline exceeded (Client.Timeout exceeded while awaiting headers)")).

End Fixture.

(** ** What the specification calls the outcome of a push *)

(** The four outcomes; [Push] reports them through its two results. *)
Inductive PushOutcome : Type :=
| Accepted
| RejectedWith (reasons : list string)
| Unauthorized
| Error (detail : error).

(** The error [Test] answers a 401 with. *)
Definition unauthorized : error := errors_New "unauthorized: bad credentials".

(** Modelled from the spec: how a caller reads the two results of [Push];
    the callers are not part of the given sources.  A non-nil error is
    [Unauthorized] when it is the credentials error and [Error] otherwise;
    without an error, a nil list is [Accepted] and any other list is
    [Rejected]. *)
Definition outcome (r : option (list string) * option error) : PushOutcome :=
  match r with
  | (_, Some e) =>
      match e with
      | errors_New msg =>
          if String.eqb msg "unauthorized: bad credentials"
          then Unauthorized else Error e
      | _ => Error e
      end
  | (None, None) => Accepted
  | (Some reasons, None) => RejectedWith reasons
  end.

(** What a call returned, if it did not panic. *)
Definition returned {A} (r : Result A) : option A :=
  match r with
  | Return a _ => Some a
  | Panic _ => None
  end.

(** The answers of the downstream application that reject a release: a
    bad request listing rejection objects, or any other status whose body
    carries a true rejection flag, with the reasons [Push] hands back. *)
Inductive rejects `{Collaborators}
  : Z -> Go.bytes -> option (list string) -> Prop :=
| rejects_bad_request (res : Go.bytes) (l : list BadRequestResponse) :
    Unmarshal_BadRequestResponses res = inl (map Some l) ->
    rejects Go.StatusBadRequest res (Some (map BadRequestResponse_String l))
| rejects_flag (status : Z) (res : Go.bytes) (pushResponse : PushResponse) :
    status <> Go.StatusBadRequest ->
    Unmarshal_PushResponse res = inl pushResponse ->
    Rejected pushResponse = true ->
    rejects status res (Rejections pushResponse).

(** The decoding [Push] asks for at a status, when it fails with [e]. *)
Definition fails_to_parse `{Collaborators}
    (status : Z) (res : Go.bytes) (e : error) : Prop :=
  if status =? Go.StatusBadRequest
  then Unmarshal_BadRequestResponses res = inr e
  else Unmarshal_PushResponse res = inr e.

(** ** The catalogue requests of the client *)

(** [url.Values.Set]: the key gets the one value, whatever it had. *)
Definition Values_Set (v : gmap string (list string)) (key value : string)
  : gmap string (list string) :=
  <[ key := [value] ]> v.

(** What [GetBooks] and [GetTags] call but the given sources do not define:
    the types [Book] and [arr.Tag] and the request helper [getJSON], which
    gets the endpoint, the query ([None] is the nil map) and a pointer to
    the slice to fill, and gives the slice as it left it and its error. *)
Class Catalogue : Type := {
  Book : Type;
  Tag : Type;
  getJSON_Books :
    Client.t -> string -> option (gmap string (list string)) ->
    option (list Book) -> option (list Book) * option error;
  getJSON_Tags :
    Client.t -> string -> option (gmap string (list string)) ->
    option (list (option Tag)) -> option (list (option Tag)) * option error
}.

Section CatalogueMethods.

Context `{Catalogue}.

(** The query [GetBooks] builds before its request. *)
Definition GetBooks_params (gridID : string) : gmap string (list string) :=
  let params : gmap string (list string) := ∅ in
  if negb (String.eqb gridID "")
  then Values_Set params "titleSlug" gridID
  else params.

Definition GetBooks (c : Client.t) (gridID : string)
  : option (list Book) * option error :=
  let params := GetBooks_params gridID in
  let data : option (list Book) := Some [] in
  let '(data, err) := getJSON_Books c "book" (Some params) data in
  match err with
  | Some e => (None, Some (errors_Wrap e "could not get tags"))
  | None => (data, None)
  end.

Definition GetTags (c : Client.t)
  : option (list (option Tag)) * option error :=
  let data : option (list (option Tag)) := Some [] in
  let '(data, err) := getJSON_Tags c "tag" None data in
  match err with
  | Some e => (None, Some (errors_Wrap e "could not get tags"))
  | None => (data, None)
  end.

End CatalogueMethods.

(** ** What a pattern matches *)

(** [Matches r w c c']: the pattern [r] matches the text [w] and takes the
    capture groups from [c] to [c']. *)
Inductive Matches : Regex.regex -> string -> Regex.captures -> Regex.captures -> Prop :=
| Matches_Lit (a : ascii) (c : Regex.captures) :
    Matches (Regex.Lit a) (String a EmptyString) c c
| Matches_AnyChar (b : ascii) (c : Regex.captures) :
    Regex.is_newline b = false ->
    Matches Regex.AnyChar (String b EmptyString) c c
| Matches_Digit (b : ascii) (c : Regex.captures) :
    Regex.is_digit b = true ->
    Matches Regex.Digit (String b EmptyString) c c
| Matches_Eps (c : Regex.captures) :
    Matches Regex.Eps EmptyString c c
| Matches_Seq (r1 r2 : Regex.regex) (w1 w2 : string) (c c1 c2 : Regex.captures) :
    Matches r1 w1 c c1 -> Matches r2 w2 c1 c2 ->
    Matches (Regex.Seq r1 r2) (w1 +:+ w2) c c2
| Matches_Alt_l (r1 r2 : Regex.regex) (w : string) (c c1 : Regex.captures) :
    Matches r1 w c c1 -> Matches (Regex.Alt r1 r2) w c c1
| Matches_Alt_r (r1 r2 : Regex.regex) (w : string) (c c1 : Regex.captures) :
    Matches r2 w c c1 -> Matches (Regex.Alt r1 r2) w c c1
| Matches_Star_nil (r : Regex.regex) (c : Regex.captures) :
    Matches (Regex.Star r) EmptyString c c
| Matches_Star_cons (r : Regex.regex) (w1 w2 : string) (c c1 c2 : Regex.captures) :
    Matches r w1 c c1 -> Matches (Regex.Star r) w2 c1 c2 ->
    Matches (Regex.Star r) (w1 +:+ w2) c c2
| Matches_Plus (r : Regex.regex) (w1 w2 : string) (c c1 c2 : Regex.captures) :
    Matches r w1 c c1 -> Matches (Regex.Star r) w2 c1 c2 ->
    Matches (Regex.Plus r) (w1 +:+ w2) c c2
| Matches_Opt_some (r : Regex.regex) (w : string) (c c1 : Regex.captures) :
    Matches r w c c1 -> Matches (Regex.Opt r) w c c1
| Matches_Opt_none (r : Regex.regex) (c : Regex.captures) :
    Matches (Regex.Opt r) EmptyString c c
| Matches_Group (i : nat) (r : Regex.regex) (w : string) (c c1 : Regex.captures) :
    Matches r w c c1 ->
    Matches (Regex.Group i r) w c (<[ i := w ]> c1).

(** Whether every character of [s] is a decimal digit. *)
Fixpoint all_digits (s : string) : bool :=
  match s with
  | String c rest => Regex.is_digit c && all_digits rest
  | EmptyString => true
  end.

(** Whether [s] has a line feed in it. *)
Fixpoint has_newline (s : string) : bool :=
  match s with
  | String c rest => Regex.is_newline c || has_newline rest
  | EmptyString => false
  end.

(** What [run] hands to its continuation is what is left of the text after
    a match of the pattern, with the captures of that match. *)
Definition run_is_sound (r : Regex.regex) : Prop :=
  forall (s : string) (c : Regex.captures)
         (k : string -> Regex.captures -> option Regex.captures) (res : Regex.captures),
    Regex.run r s c k = Some res ->
    exists (w s' : string) (c' : Regex.captures),
      s = w +:+ s' /\ Matches r w c c' /\ k s' c' = Some res.

(** The loop of [run] at a starred pattern, by its name. *)
Definition star_loop (r : Regex.regex)
    (k : string -> Regex.captures -> option Regex.captures)
  : nat -> string -> Regex.captures -> option Regex.captures :=
  fix loop (n : nat) (s : string) (c : Regex.captures) : option Regex.captures :=
    match n with
    | O => k s c
    | S n' =>
        match Regex.run r s c
                (fun s' c' =>
                   if (String.length s' <? String.length s)%nat
                   then loop n' s' c' else None) with
        | Some res => Some res
        | None => k s c
        end
    end.

(** [run] finds a match of [r] on [w] whenever what follows can go on. *)
Definition run_is_complete (r : Regex.regex) (w : string) : Prop :=
  forall (s' : string) (c : Regex.captures)
         (k : string -> Regex.captures -> option Regex.captures),
    (forall c', exists res, k s' c' = Some res) ->
    (exists res, Regex.run r (w +:+ s') c k = Some res)
    /\ (forall r0, r = Regex.Star r0 ->
        forall n, (String.length (w +:+ s') <= n)%nat ->
        exists res, star_loop r0 k n (w +:+ s') c = Some res).

(** The announce of the tracker's bot, put together from its parts. *)
Definition announce (name category size host id : string) : string :=
  "::: PolishTracker :::  Torrent ( " +:+ name
  +:+ " )  ||  Kategoria: ( " +:+ category
  +:+ " )  ||  Rozmiar: ( " +:+ size
  +:+ " )  ||  Link: ( " +:+ ("https://" +:+ host)
  +:+ "/torrents/" +:+ id +:+ " )".

(** The pattern that reads the text [w] and goes on as [r]. *)
Fixpoint literally (w : string) (r : Regex.regex) : Regex.regex :=
  match w with
  | String c rest => Regex.Seq (Regex.Lit c) (literally rest r)
  | EmptyString => r
  end.

(** The pattern of the PolishTracker definition, as it compiles. *)
Definition polishtracker_regex : Regex.regex :=
  literally "::: PolishTracker :::  Torrent ( "
    (Regex.Seq (Regex.Group 0 (Regex.Star Regex.AnyChar))
    (literally " )  ||  Kategoria: ( "
    (Regex.Seq (Regex.Group 1 (Regex.Star Regex.AnyChar))
    (literally " )  ||  Rozmiar: ( "
    (Regex.Seq (Regex.Group 2 (Regex.Star Regex.AnyChar))
    (literally " )  ||  Link: ( "
    (Regex.Seq
       (Regex.Group 3 (literally "https://" (Regex.Star Regex.AnyChar)))
    (literally "/torrents/"
    (Regex.Seq (Regex.Group 4 (Regex.Plus Regex.Digit))
    (literally " " (Regex.Lit ")")))))))))))%char.

(** ** More recorded answers *)

Module Recorded.

Definition flag_without_reasons : Fixture.answer :=
  (200, Fixture.body "{'rejected': true}", None).

Definition nil_rejection : Fixture.answer :=
  (400, Fixture.body "[null]", None).

Definition system_status : Fixture.answer :=
  (200, Fixture.body "{'appName': 'Readarr', 'version': '0.3.10'}", None).

(** Collaborators whose push answers all have the body [res], with the
    status 500 for the release titled [retry] and 200 for the others. *)
Definition by_title (res : Go.bytes) : Collaborators :=
  {| Release := Fixture.PushedRelease;
     Title := Fixture.title;
     BadRequestResponse := Fixture.Rejection;
     BadRequestResponse_String := Fixture.Rejection_String;
     SystemStatusResponse := Fixture.Status;
     get := fun _ _ => (200, res, None);
     postBody := fun _ _ release =>
       (if String.eqb (Fixture.title release) "retry" then 500 else 200,
        res, None);
     Unmarshal_BadRequestResponses := Fixture.decode_Rejections;
     Unmarshal_PushResponse := Fixture.decode_PushResponse;
     Unmarshal_SystemStatusResponse := Fixture.decode_Status |}.

(** A catalogue whose requests all fail, or all give one entry. *)
Definition catalogue (fails : bool) : Catalogue :=
  {| Book := string;
     Tag := string;
     getJSON_Books := fun _ _ _ data =>
       if fails then (data, Some (errors_New "connection refused"))
       else (Some ["some-book"], None);
     getJSON_Tags := fun _ _ _ data =>
       if fails then (data, Some (errors_New "connection refused"))
       else (Some [Some "some-tag"], None) |}.

End Recorded.

(** ** The transport call and its timeout *)

(** How the downstream application takes one request: it answers after
    [delay] nanoseconds with a status and a body, or it never answers. *)
Inductive Downstream : Type :=
| Answers (delay : Z) (status : Z) (body : Go.bytes)
| Silent.

(** A blocking call comes back or it does not. *)
Inductive Attempt (A : Type) : Type :=
| Hangs
| Completes (a : A).

Arguments Hangs {A}.
Arguments Completes {A} a.

(** The error of a request that ran into the timeout of its client. *)
Definition deadline_exceeded : error :=
  errors_New "context deadline exceeded (Client.Timeout exceeded while awaiting headers)".

(** Modelled from the spec: the transport call behind [postBody] and [get],
    which is not part of the given sources: "a blocking network operation
    owned by a collaborator ... bounded by a timeout", where "no response
    within timeout" is an error and not a hang.  The bound is the [Timeout]
    of the client's [http.Client]; a timeout that is not positive is no
    timeout, and the call then waits for the answer as long as it takes. *)
Definition transport_call (h : http_Client) (d : Downstream)
  : Attempt (Z * Go.bytes * option error) :=
  if 0 <? Timeout h then
    match d with
    | Answers delay status body =>
        if delay <? Timeout h
        then Completes (status, body, None)
        else Completes (0, [], Some deadline_exceeded)
    | Silent => Completes (0, [], Some deadline_exceeded)
    end
  else
    match d with
    | Answers _ status body => Completes (status, body, None)
    | Silent => Hangs
    end.

(** The collaborators [base] with the requests of the client all getting
    what the transport call came back with. *)
Definition answered (base : Collaborators) (response : Z * Go.bytes * option error)
  : Collaborators :=
  {| Release := @Release base;
     Title := @Title base;
     BadRequestResponse := @BadRequestResponse base;
     BadRequestResponse_String := @BadRequestResponse_String base;
     SystemStatusResponse := @SystemStatusResponse base;
     get := fun _ _ => response;
     postBody := fun _ _ _ => response;
     Unmarshal_BadRequestResponses := @Unmarshal_BadRequestResponses base;
     Unmarshal_PushResponse := @Unmarshal_PushResponse base;
     Unmarshal_SystemStatusResponse := @Unmarshal_SystemStatusResponse base |}.

(** [Push] with its request made through the [http.Client] of the client,
    against the downstream [d]. *)
Definition Push_through (base : Collaborators) (d : Downstream)
    (c : Client.t) (release : @Release base) (j : Journal)
  : Attempt (Result (option (list string) * option error)) :=
  match transport_call (Client.http c) d with
  | Hangs => Hangs
  | Completes response => Completes (@Push (answered base response) c release j)
  end.

(** A client like those of [New], but with no timeout on its requests. *)
Definition without_timeout (c : Client.t) : Client.t :=
  {| Client.config := Client.config c;
     Client.http := {| Timeout := 0; Transport := Transport (Client.http c) |};
     Client.Log := Client.Log c |}.

(** * Properties of the readarr client *)

Section ClientFacts.

Context `{Collaborators}.

Lemma Printf_returns (lg : Logger) (fmt : string) (a : list Value) (j : Journal) :
  exists j', Printf (Some lg) fmt a j = Return tt j'.
Proof.
  unfold Printf. destruct (out lg); eauto.
Qed.

Lemma describe_objects (l : list BadRequestResponse) :
  forall (acc : list string) (j : Journal),
    describe (map Some l) acc j
    = Return (acc ++ map BadRequestResponse_String l)%list j.
Proof.
  induction l as [|r l IH]; intros acc j; simpl.
  - now rewrite app_nil_r.
  - rewrite IH. now rewrite <- app_assoc.
Qed.

Lemma describe_panics (l : list (option BadRequestResponse)) :
  forall (acc : list string) (j : Journal) (reason : string),
    describe l acc j = Panic reason -> In None l.
Proof.
  induction l as [|[r|] l IH]; intros acc j reason; simpl.
  - discriminate.
  - intros E. right. eapply IH, E.
  - intros _. now left.
Qed.

Lemma New_logger (config : Config.t) :
  Client.Log (New config)
  = Some (default (log_New io_Discard "" Go.LstdFlags) (Config.Log config)).
Proof.
  unfold New. now destruct (Config.Log config).
Qed.

(** Unfolds a call of [Push] whose request got an answer and whose client
    has a logger, down to the decoding of the body. *)
Ltac enter_push Hpost Hlog :=
  unfold Push; rewrite Hpost; cbn [mbind M_bind bind mret M_ret ret];
  unfold mbind, M_bind, bind, mret, M_ret, ret, Printf; rewrite Hlog.

(** C2: a 400 answer whose body decodes to a list of rejection objects is
    returned as the descriptions of those objects, in the order of the
    list and one for each object, with no error. *)
Theorem Push_bad_request_lists_descriptions
    (c : Client.t) (release : Release) (res : Go.bytes)
    (l : list BadRequestResponse) (lg : Logger) (j : Journal) :
  postBody c "release/push" release = (Go.StatusBadRequest, res, None) ->
  Client.Log c = Some lg ->
  Unmarshal_BadRequestResponses res = inl (map Some l) ->
  (exists j', Push c release j
              = Return (Some (map BadRequestResponse_String l), None) j')
  /\ length (map BadRequestResponse_String l) = length l
  /\ outcome (Some (map BadRequestResponse_String l), None)
     = RejectedWith (map BadRequestResponse_String l).
Proof.
  intros Hpost Hlog Hdec. split; [|split].
  - enter_push Hpost Hlog.
    destruct (out lg); cbn; rewrite Hdec, describe_objects; cbn; eauto.
  - apply length_map.
  - reflexivity.
Qed.


(** C4: at every status, a body that fails to decode into the shape asked
    for at that status is returned as the wrapped decoding error, with a
    nil rejection list. *)
Theorem Push_parse_failure_is_error
    (c : Client.t) (release : Release) (status : Z) (res : Go.bytes)
    (e : error) (lg : Logger) (j : Journal) :
  postBody c "release/push" release = (status, res, None) ->
  Client.Log c = Some lg ->
  fails_to_parse status res e ->
  (exists j', Push c release j
              = Return (None, Some (errors_Wrap e "could not unmarshal data")) j')
  /\ outcome (None, Some (errors_Wrap e "could not unmarshal data"))
     = Error (errors_Wrap e "could not unmarshal data").
Proof.
  intros Hpost Hlog Hfail. split; [|reflexivity].
  enter_push Hpost Hlog. unfold fails_to_parse in Hfail.
  destruct (out lg); cbn;
    destruct (status =? Go.StatusBadRequest); rewrite Hfail; eauto.
Qed.

(** C5: an answer that rejects the release, by either shape, is returned
    as its reasons with a nil error. *)
Theorem Push_rejection_has_nil_error
    (c : Client.t) (release : Release) (status : Z) (res : Go.bytes)
    (reasons : option (list string)) (lg : Logger) (j : Journal) :
  postBody c "release/push" release = (status, res, None) ->
  Client.Log c = Some lg ->
  rejects status res reasons ->
  exists j', Push c release j = Return (reasons, None) j'.
Proof.
  intros Hpost Hlog Hrej.
  destruct Hrej as [res l Hdec | status res pushResponse Hstatus Hdec Hflag].
  - enter_push Hpost Hlog.
    destruct (out lg); cbn; rewrite Hdec, describe_objects; cbn; eauto.
  - enter_push Hpost Hlog.
    apply Z.eqb_neq in Hstatus.
    destruct (out lg); cbn; rewrite Hstatus, Hdec, Hflag; cbn;
      rewrite ?Hlog; destruct (out lg); cbn; eauto.
Qed.

(** C10: whatever the configuration, the client built by [New] has a
    logger: the configured one, or else one that discards.  So every
    [Printf] on it returns, [Test] never panics, and [Push] can panic
    only on a nil rejection object, never in a logging call. *)
Theorem New_logger_is_never_nil (config : Config.t) :
  (exists lg, Client.Log (New config) = Some lg
     /\ (Config.Log config = None -> lg = log_New io_Discard "" Go.LstdFlags)
     /\ (forall l, Config.Log config = Some l -> lg = l))
  /\ (forall fmt a j,
        exists j', Printf (Client.Log (New config)) fmt a j = Return tt j')
  /\ (forall j, exists r j', Test (New config) j = Return r j')
  /\ (forall release j reason,
        Push (New config) release j = Panic reason ->
        exists res l,
          Unmarshal_BadRequestResponses res = inl l /\ In None l).
Proof.
  pose proof (New_logger config) as Hlog.
  set (lg := default (log_New io_Discard "" Go.LstdFlags) (Config.Log config)) in *.
  repeat split.
  - exists lg. split; [exact Hlog|]. subst lg. split.
    + intros ->. reflexivity.
    + intros l ->. reflexivity.
  - intros fmt a j. rewrite Hlog. apply Printf_returns.
  - intros j. unfold Test.
    destruct (get (New config) "system/status") as [[status res] [e|]];
      cbn [mbind M_bind bind mret M_ret ret]; [unfold ret; eauto|].
    destruct (status =? Go.StatusUnauthorized); [unfold ret; eauto|].
    unfold mbind, M_bind, bind, Printf. rewrite Hlog.
    destruct (out lg);
      destruct (Unmarshal_SystemStatusResponse res); unfold ret; eauto.
  - intros release j reason. unfold Push.
    destruct (postBody (New config) "release/push" release)
      as [[status res] [e|]]; [discriminate|].
    unfold mbind, M_bind, bind, mret, M_ret, ret, Printf. rewrite Hlog.
    destruct (out lg) eqn:Hout; cbn;
      (destruct (status =? Go.StatusBadRequest);
       [ destruct (Unmarshal_BadRequestResponses res) as [l|e] eqn:Hdec;
           [|discriminate];
         destruct (describe l [] _) eqn:Hd; [|discriminate];
         intros _; exists res, l; split;
           [exact Hdec | eapply describe_panics, Hd]
       | destruct (Unmarshal_PushResponse res) as [p|e]; [|discriminate];
         destruct (Rejected p); [|discriminate];
         rewrite ?Hlog, ?Hout; discriminate ]).
Qed.

End ClientFacts.

(** *** The same facts on recorded answers *)

Lemma Push_bad_request_lists_descriptions_witness :
  exists j',
    @Push (Fixture.collaborators Fixture.bad_request)
      (New Fixture.logging_config) Fixture.release []
    = Return (Some ["title: already in library"], None) j'.
Proof.
  refine (proj1 (@Push_bad_request_lists_descriptions
            (Fixture.collaborators Fixture.bad_request)
            (New Fixture.logging_config) Fixture.release
            (Fixture.body "[{'propertyName': 'title', 'errorMessage': 'already in library'}]")
            [Fixture.mkRejection "title" "already in library"]
            (log_New (io_Stream 2) "readarr " Go.LstdFlags) [] _ _ _)).
  - reflexivity.
  - reflexivity.
  - vm_compute. reflexivity.
Defined.

Lemma Push_parse_failure_is_error_witness :
  exists j',
    @Push (Fixture.collaborators Fixture.truncated)
      (New Fixture.config) Fixture.release []
    = Return (None, Some (errors_Wrap Fixture.syntax_error "could not unmarshal data")) j'.
Proof.
  refine (proj1 (@Push_parse_failure_is_error
            (Fixture.collaborators Fixture.truncated)
            (New Fixture.config) Fixture.release 200
            (Fixture.body "{'rejected': tr") Fixture.syntax_error
            (log_New io_Discard "" Go.LstdFlags) [] _ _ _)).
  - reflexivity.
  - reflexivity.
  - vm_compute. reflexivity.
Defined.

Lemma Push_rejection_has_nil_error_witness :
  exists j',
    @Push (Fixture.collaborators Fixture.rejected)
      (New Fixture.logging_config) Fixture.release []
    = Return (Some ["a"; "b"], None) j'.
Proof.
  refine (@Push_rejection_has_nil_error
            (Fixture.collaborators Fixture.rejected)
            (New Fixture.logging_config) Fixture.release 200
            (Fixture.body "{'rejected': true, 'rejections': ['a','b']}")
            (Some ["a"; "b"])
            (log_New (io_Stream 2) "readarr " Go.LstdFlags) [] _ _ _).
  - reflexivity.
  - reflexivity.
  - refine (@rejects_flag (Fixture.collaborators Fixture.rejected) 200 _
              (mkPushResponse true (Some ["a"; "b"])) _ _ _).
    + discriminate.
    + vm_compute. reflexivity.
    + reflexivity.
Defined.

Lemma New_logger_is_never_nil_witness :
  Client.Log (New Fixture.config) = Some (log_New io_Discard "" Go.LstdFlags)
  /\ Client.Log (New Fixture.logging_config)
     = Some (log_New (io_Stream 2) "readarr " Go.LstdFlags).
Proof.
  split.
  - destruct (@New_logger_is_never_nil
                (Fixture.collaborators Fixture.accepted) Fixture.config)
      as [[lg [Hlog [Hnone _]]] _].
    rewrite Hlog, (Hnone eq_refl). reflexivity.
  - destruct (@New_logger_is_never_nil
                (Fixture.collaborators Fixture.accepted) Fixture.logging_config)
      as [[lg [Hlog [_ Hsome]]] _].
    rewrite Hlog, (Hsome _ eq_refl). reflexivity.
Defined.

(** For every body, [Push] treats a 401 answer like any other status that
    is not 400: it decodes the body as a push response, and what it returns
    is never the credentials error. *)
Lemma Push_does_not_check_unauthorized `{Collaborators}
    (c : Client.t) (release : Release) (res : Go.bytes) (lg : Logger)
    (j : Journal) :
  postBody c "release/push" release = (Go.StatusUnauthorized, res, None) ->
  Client.Log c = Some lg ->
  exists r j',
    Push c release j = Return r j'
    /\ r = match Unmarshal_PushResponse res with
           | inl pushResponse =>
               if Rejected pushResponse
               then (Rejections pushResponse, None) else (None, None)
           | inr e => (None, Some (errors_Wrap e "could not unmarshal data"))
           end
    /\ outcome r <> Unauthorized.
Proof.
  intros Hpost Hlog. unfold Push. rewrite Hpost.
  unfold mbind, M_bind, bind, mret, M_ret, ret, Printf. rewrite Hlog.
  destruct (out lg) eqn:Hout; cbn;
    (destruct (Unmarshal_PushResponse res) as [p|e];
     [ destruct (Rejected p); rewrite ?Hout;
       eexists; eexists; (split; [reflexivity|]); (split; [reflexivity|]);
       cbn; try destruct (Rejections p); discriminate
     | eexists; eexists; (split; [reflexivity|]); (split; [reflexivity|]);
       discriminate ]).
Qed.

(** C1 (the code departs from it): on a 401 answer with the body
    [{"error": "Unauthorized"}], [Push] returns no rejections and no error,
    which a caller reads as accepted, where [Test] on the same answer
    returns the credentials error. *)
Theorem Push_reads_unauthorized_as_accepted :
  returned (@Push (Fixture.collaborators Fixture.denied)
              (New Fixture.config) Fixture.release [])
  = Some (None, None)
  /\ outcome (None, None) = Accepted
  /\ returned (@Test (Fixture.collaborators Fixture.denied)
                 (New Fixture.config) [])
     = Some (None, Some unauthorized)
  /\ outcome (None, Some unauthorized) = Unauthorized.
Proof.
  repeat split; vm_compute; reflexivity.
Qed.

(** * Properties of the PolishTracker definition *)

Section MatcherFacts.

Import Regex.

Lemma prefix_cons (a b : ascii) (w s : string) :
  String.prefix (String a w) (String b s) = true <->
  a = b /\ String.prefix w s = true.
Proof.
  simpl. destruct (ascii_dec a b) as [->|Hne].
  - tauto.
  - split; [discriminate|]. intros [Heq _]. contradiction.
Qed.

Lemma prefix_trans (a : string) :
  forall b s : string,
    String.prefix a b = true -> String.prefix b s = true ->
    String.prefix a s = true.
Proof.
  induction a as [|x a IH]; intros b s Hab Hbs; [now destruct s|].
  destruct b as [|y b]; [discriminate|].
  destruct s as [|z s]; [discriminate|].
  apply prefix_cons in Hab as [-> Hab].
  apply prefix_cons in Hbs as [-> Hbs].
  apply prefix_cons. split; [reflexivity|]. eapply IH; eassumption.
Qed.

(** A match of [r] at the head of [s] reads the leading text of [r]. *)
Lemma run_reads_leading (r : regex) :
  forall (s : string) (c : captures)
         (k : string -> captures -> option captures) (res : captures),
    run r s c k = Some res -> String.prefix (leading r) s = true.
Proof.
  induction r as [a| | |r1 IH1 r2 IH2| | | | | |]; intros s c k res Hrun;
    try (now destruct s).
  - simpl in Hrun. destruct s as [|b s]; [discriminate|].
    destruct (Ascii.eqb a b) eqn:Hab; [|discriminate].
    apply Ascii.eqb_eq in Hab as ->.
    apply prefix_cons. split; [reflexivity|]. now destruct s.
  - destruct r1 as [c0| | | | | | | | |]; try (now destruct s).
    simpl in Hrun. destruct s as [|b s]; [discriminate|].
    destruct (Ascii.eqb c0 b) eqn:Hab; [|discriminate].
    apply Ascii.eqb_eq in Hab as ->.
    change (leading (Seq (Lit b) r2)) with (String b (leading r2)).
    apply prefix_cons. split; [reflexivity|]. eapply IH2, Hrun.
Qed.

(** A line in which [r] matches somewhere contains every prefix of the
    leading text of [r]. *)
Lemma find_contains_leading (r : regex) (g : nat) (w : string) :
  String.prefix w (leading r) = true ->
  forall (s : string) (caps : captures),
    find r g s = Some caps -> PolishTracker.contains s w = true.
Proof.
  intros Hw. induction s as [|b s IH]; intros caps Hfind.
  - simpl in Hfind. unfold match_here in Hfind.
    destruct (run r EmptyString _ _) eqn:Hrun; [|discriminate].
    apply run_reads_leading in Hrun.
    cbn [PolishTracker.contains].
    rewrite (prefix_trans _ _ _ Hw Hrun). reflexivity.
  - simpl in Hfind. unfold match_here in Hfind.
    destruct (run r (String b s) _ _) eqn:Hrun.
    + apply run_reads_leading in Hrun.
      cbn [PolishTracker.contains].
      rewrite (prefix_trans _ _ _ Hw Hrun). reflexivity.
    + cbn [PolishTracker.contains]. rewrite (IH _ Hfind).
      apply orb_true_r.
Qed.

End MatcherFacts.

Section DefinitionFacts.

Import Indexer PolishTracker.

Lemma append_empty (s : string) : s +:+ EmptyString = s.
Proof.
  induction s as [|c s IH]; [reflexivity|].
  change (String c (s +:+ EmptyString) = String c s). now f_equal.
Qed.

(** The definition passes validation; its one pattern has five groups
    and begins with the banner. *)
Lemma polishtracker_is_valid :
  exists (v : ValidDefinition) (c : CompiledLine),
    validate polishtracker = inl v
    /\ compiled v = [c]
    /\ groups c = 5%nat
    /\ names c = ["torrentName"; "category"; "torrentSize"; "baseUrl"; "torrentId"]
    /\ String.prefix banner (Regex.leading (re c)) = true.
Proof.
  eexists. eexists.
  split; [vm_compute; reflexivity|].
  split; [reflexivity|].
  split; [reflexivity|].
  split; [reflexivity|].
  vm_compute. reflexivity.
Qed.

(** The [torrenturl] template joins the base address, the RSS key and the
    torrent number, whatever else was captured. *)
Lemma torrenturl_renders (variables settings : gmap string string)
    (base key id : string) :
  variables !! "baseUrl" = Some base ->
  variables !! "torrentId" = Some id ->
  variables !! "rsskey" = None ->
  settings !! "rsskey" = Some key ->
  Template.render torrenturl variables settings
  = inl (base +:+ "/downrss/" +:+ key +:+ "/" +:+ id).
Proof.
  intros Hbase Hid Hnone Hkey. unfold Template.render.
  replace (Template.parse torrenturl)
    with (Some [Template.Ref "baseUrl"; Template.Text "/downrss/";
                Template.Ref "rsskey"; Template.Text "/";
                Template.Ref "torrentId"])
    by (vm_compute; reflexivity).
  cbn [Template.expand_all fold_right Template.expand].
  rewrite Hbase, Hid, Hnone, Hkey. cbn [default].
  now rewrite append_empty.
Qed.

(** Every example line of the definition matches its pattern. *)
Lemma definition_examples_match :
  forallb
    (fun example =>
       match process polishtracker example with
       | Yields (Matched _) => true
       | _ => false
       end)
    (concat (map test (patterns polishtracker)))
  = true.
Proof.
  vm_compute. reflexivity.
Qed.

(** C7: the definition's [torrenturl] template, rendered with the captured
    [baseUrl] and [torrentId] and the setting [rsskey] of the
    specification, is exactly the download address it gives. *)
Theorem torrenturl_renders_documented_link :
  matchTemplates polishtracker !! "torrenturl"
  = Some "{{ .baseUrl }}/downrss/{{ .rsskey }}/{{ .torrentId }}"
  /\ Template.render "{{ .baseUrl }}/downrss/{{ .rsskey }}/{{ .torrentId }}"
       {[ "baseUrl" := "https://pte.nu"; "torrentId" := "000000" ]}
       {[ "rsskey" := "ABC123" ]}
     = inl "https://pte.nu/downrss/ABC123/000000".
Proof.
  split; [vm_compute; reflexivity|].
  exact (torrenturl_renders
           {[ "baseUrl" := "https://pte.nu"; "torrentId" := "000000" ]}
           {[ "rsskey" := "ABC123" ]}
           "https://pte.nu" "ABC123" "000000"
           eq_refl eq_refl eq_refl eq_refl).
Qed.

(** C8, as the specification prints the line: with single spaces it does
    not match the pattern, so no variable map comes out of it. *)
Lemma documented_line_does_not_match :
  process polishtracker documented_line = Yields NoMatch
  /\ process polishtracker documented_line
     <> Yields (Matched documented_variables).
Proof.
  assert (H : process polishtracker documented_line = Yields NoMatch)
    by (vm_compute; reflexivity).
  split; [exact H|]. rewrite H. discriminate.
Qed.

(** C8, amended: the announce with the two spaces between its parts that
    the pattern and the definition's examples have yields the five
    variables of the specification, the capture groups zipped in order
    with the declared names. *)
Theorem announced_line_yields_documented_variables :
  process polishtracker announced_line = Yields (Matched documented_variables)
  /\ (exists (v : ValidDefinition) (c : CompiledLine),
        validate polishtracker = inl v
        /\ compiled v = [c]
        /\ Regex.find (re c) (groups c) announced_line = Some documented_groups
        /\ documented_variables = list_to_map (zip (names c) documented_groups)).
Proof.
  split; [vm_compute; reflexivity|].
  eexists. eexists.
  split; [vm_compute; reflexivity|].
  split; [reflexivity|].
  split; vm_compute; reflexivity.
Qed.

(** C9: a line that does not contain the banner yields no match from the
    definition, which validates: the line is never answered with a
    definition error. *)
Theorem line_without_banner_is_no_match (line : string) :
  contains line banner = false ->
  process polishtracker line = Yields NoMatch.
Proof.
  intros Hline.
  destruct polishtracker_is_valid as (v & c & Hv & Hc & _ & _ & Hlead).
  unfold process. rewrite Hv. unfold match_line. rewrite Hc.
  cbn [first_match].
  destruct (Regex.find (re c) (groups c) line) as [caps|] eqn:Hfind;
    [|reflexivity].
  apply (find_contains_leading _ _ _ Hlead) in Hfind. congruence.
Qed.

Lemma line_without_banner_is_no_match_witness :
  contains "PING :irc.pte.nu" banner = false
  /\ process polishtracker "PING :irc.pte.nu" = Yields NoMatch.
Proof.
  split; [reflexivity|].
  apply (line_without_banner_is_no_match "PING :irc.pte.nu"). reflexivity.
Defined.

End DefinitionFacts.

(** * Further properties of the readarr client *)

Section PushFacts.

Context `{Collaborators}.

(** Splits what [Push] does after its request into the paths it can take. *)
Ltac push_body c status res :=
  unfold mbind, M_bind, bind, mret, M_ret, ret, Printf;
  destruct (Client.Log c) as [?lg|] eqn:?Hlog;
    [ destruct (out _) as [|?fd] eqn:?Hout; cbn;
      (destruct (status =? Go.StatusBadRequest) eqn:?Hstatus;
       [ destruct (Unmarshal_BadRequestResponses res) as [?l|?err] eqn:?Hbad;
         [ destruct (describe _ [] _) as [?reason|?reasons ?j1] eqn:?Hdesc | ]
       | destruct (Unmarshal_PushResponse res) as [?p|?err] eqn:?Hpush;
         [ destruct (Rejected _) eqn:?Hflag; rewrite ?Hout | ] ])
    | ].

(** Splits a call of [Push] into the paths it can take. *)
Ltac push_paths c release :=
  unfold Push;
  destruct (postBody c "release/push" release) as [[?status ?res] [?err|]];
    [ | match goal with
        | |- context [Go.string_of_bytes ?res] =>
            match goal with
            | |- context [VInt ?status] => push_body c status res
            end
        end ].

(** X1: what [Push] returns never has both a rejection list and an error:
    with an error the list is nil. *)
Theorem Push_error_excludes_rejections
    (c : Client.t) (release : Release) (j j' : Journal)
    (rejections : option (list string)) (e : error) :
  Push c release j = Return (rejections, Some e) j' ->
  rejections = None.
Proof.
  push_paths c release; intros Hret; try discriminate;
    injection Hret as <- _ _; reflexivity.
Qed.

(** X2: [Push] looks at the status only to tell 400 from the rest: two
    answers with the same body and statuses other than 400, a 200 and a 500
    say, are returned alike. *)
Theorem Push_reads_every_other_status_alike
    (c : Client.t) (release1 release2 : Release) (status1 status2 : Z)
    (res : Go.bytes) (j : Journal) :
  postBody c "release/push" release1 = (status1, res, None) ->
  postBody c "release/push" release2 = (status2, res, None) ->
  status1 <> Go.StatusBadRequest ->
  status2 <> Go.StatusBadRequest ->
  returned (Push c release1 j) = returned (Push c release2 j).
Proof.
  intros Hpost1 Hpost2 Hs1 Hs2.
  apply Z.eqb_neq in Hs1. apply Z.eqb_neq in Hs2.
  unfold Push. rewrite Hpost1, Hpost2.
  unfold mbind, M_bind, bind, mret, M_ret, ret, Printf.
  destruct (Client.Log c) as [lg|]; [|reflexivity].
  destruct (out lg) eqn:Hout; cbn; rewrite Hs1, Hs2;
    (destruct (Unmarshal_PushResponse res) as [p|e]; [|reflexivity]);
    destruct (Rejected p); rewrite ?Hout; reflexivity.
Qed.

(** X3: [Push] returns no rejections and no error exactly when the request
    was answered, the status is not 400, the body decodes and either its
    flag is false or its flag is true and its rejections list is nil. *)
Theorem Push_returns_nothing_exactly_when
    (c : Client.t) (release : Release) (status : Z) (res : Go.bytes)
    (err : option error) (lg : Logger) (j : Journal) :
  postBody c "release/push" release = (status, res, err) ->
  Client.Log c = Some lg ->
  (exists j', Push c release j = Return (None, None) j') <->
  err = None /\ status <> Go.StatusBadRequest /\
  exists pushResponse,
    Unmarshal_PushResponse res = inl pushResponse
    /\ (Rejected pushResponse = false \/ Rejections pushResponse = None).
Proof.
  intros Hpost Hlog. unfold Push. rewrite Hpost.
  destruct err as [e|].
  { split; [intros [j' Hret]; discriminate | intros [Herr _]; discriminate]. }
  unfold mbind, M_bind, bind, mret, M_ret, ret, Printf. rewrite Hlog.
  destruct (status =? Go.StatusBadRequest) eqn:Hstatus.
  - apply Z.eqb_eq in Hstatus. split.
    + intros [j' Hret]. exfalso.
      destruct (out lg); cbn in Hret;
        (destruct (Unmarshal_BadRequestResponses res); [|discriminate]);
        destruct (describe _ [] _); discriminate.
    + intros (_ & Hne & _). contradiction.
  - apply Z.eqb_neq in Hstatus. split.
    + intros [j' Hret]. split; [reflexivity|]. split; [exact Hstatus|].
      destruct (Unmarshal_PushResponse res) as [p|e] eqn:Hdec.
      * exists p. split; [reflexivity|].
        destruct (Rejected p) eqn:Hflag; [right|now left].
        destruct (out lg) eqn:Hout; cbn in Hret; rewrite ?Hout in Hret;
          now injection Hret.
      * destruct (out lg); discriminate.
    + intros (_ & _ & p & Hdec & Hcase). rewrite Hdec.
      destruct (Rejected p) eqn:Hflag.
      * destruct Hcase as [Hfalse|Hnil]; [discriminate|]. rewrite Hnil.
        destruct (out lg) eqn:Hout; cbn; rewrite ?Hout; eauto.
      * destruct (out lg); cbn; eauto.
Qed.

(** X4: [Push] panics exactly when the request was answered and either the
    client has no logger or the answer is a 400 whose decoded list has a
    nil rejection object. *)
Theorem Push_panics_exactly_when
    (c : Client.t) (release : Release) (status : Z) (res : Go.bytes)
    (err : option error) (j : Journal) :
  postBody c "release/push" release = (status, res, err) ->
  (exists reason, Push c release j = Panic reason) <->
  err = None /\
  (Client.Log c = None
   \/ (status = Go.StatusBadRequest
       /\ exists l, Unmarshal_BadRequestResponses res = inl l /\ In None l)).
Proof.
  intros Hpost. unfold Push. rewrite Hpost.
  destruct err as [e|].
  { split; [intros [reason Hret]; discriminate | intros [Herr _]; discriminate]. }
  unfold mbind, M_bind, bind, mret, M_ret, ret, Printf.
  destruct (Client.Log c) as [lg|] eqn:Hlog.
  2:{ split; [intros _; split; [reflexivity|now left] | eauto]. }
  assert (Hdescribe : forall l j0,
            (exists reason, describe l [] j0 = Panic reason) <-> In None l).
  { intros l j0. split.
    - intros [reason Hd]. eapply describe_panics, Hd.
    - generalize (@nil string) as acc. induction l as [|[r|] l IH]; intros acc.
      + intros [].
      + intros [Hin|Hin]; [discriminate|]. apply IH, Hin.
      + intros _. cbn. eauto. }
  destruct (status =? Go.StatusBadRequest) eqn:Hstatus.
  - apply Z.eqb_eq in Hstatus. split.
    + intros [reason Hret]. split; [reflexivity|]. right.
      split; [exact Hstatus|].
      destruct (Unmarshal_BadRequestResponses res) as [l|e] eqn:Hdec.
      * exists l. split; [reflexivity|].
        destruct (out lg); cbn in Hret;
          (destruct (describe l [] _) as [reason'|] eqn:Hd; [|discriminate]);
          eapply describe_panics, Hd.
      * destruct (out lg); discriminate.
    + intros (_ & [Hnil | (_ & l & Hdec & Hin)]); [discriminate|].
      rewrite Hdec.
      destruct (out lg); cbn;
        match goal with
        | |- context [describe l [] ?j0] =>
            destruct (proj2 (Hdescribe l j0) Hin) as [reason ->]
        end; eauto.
  - apply Z.eqb_neq in Hstatus. split.
    + intros [reason Hret]. exfalso.
      destruct (out lg) eqn:Hout; cbn in Hret;
        (destruct (Unmarshal_PushResponse res) as [p|e]; [|discriminate]);
        destruct (Rejected p); rewrite ?Hout in Hret; discriminate.
    + intros (_ & [Hnil | (Heq & _)]); [discriminate|contradiction].
Qed.

Lemma describe_keeps_journal (l : list (option BadRequestResponse)) :
  forall (acc : list string) (j0 : Journal) (rs : list string) (j1 : Journal),
    describe l acc j0 = Return rs j1 -> j1 = j0.
Proof.
  induction l as [|[x|] l IH]; intros acc j0 rs j1; cbn.
  - intros Hret. now injection Hret.
  - apply IH.
  - discriminate.
Qed.

(** X5: a client built from a configuration without a logger writes
    nothing: [Push] and [Test] leave the journal as it was. *)
Theorem New_without_logger_is_silent
    (config : Config.t) (release : Release) (j : Journal) :
  Config.Log config = None ->
  (forall r j', Push (New config) release j = Return r j' -> j' = j)
  /\ (forall r j', Test (New config) j = Return r j' -> j' = j).
Proof.
  intros Hnone.
  assert (Hlog : Client.Log (New config)
                 = Some (log_New io_Discard "" Go.LstdFlags))
    by (rewrite New_logger, Hnone; reflexivity).
  split; intros r j'.
  - unfold Push.
    destruct (postBody (New config) "release/push" release)
      as [[status res] [e|]];
      [intros Hret; now injection Hret|].
    unfold mbind, M_bind, bind, mret, M_ret, ret, Printf. rewrite Hlog. cbn.
    destruct (status =? Go.StatusBadRequest).
    + destruct (Unmarshal_BadRequestResponses res) as [l|e];
        [|intros Hret; now injection Hret].
      destruct (describe l [] j) as [reason|rs j1] eqn:Hdesc; [discriminate|].
      apply describe_keeps_journal in Hdesc. intros Hret. injection Hret as _ <-. exact Hdesc.
    + destruct (Unmarshal_PushResponse res) as [p|e];
        [|intros Hret; now injection Hret].
      destruct (Rejected p); rewrite ?Hlog; cbn;
        intros Hret; now injection Hret.
  - unfold Test.
    destruct (get (New config) "system/status") as [[status res] [e|]];
      [intros Hret; now injection Hret|].
    destruct (status =? Go.StatusUnauthorized);
      [intros Hret; now injection Hret|].
    unfold mbind, M_bind, bind, mret, M_ret, ret, Printf. rewrite Hlog. cbn.
    destruct (Unmarshal_SystemStatusResponse res);
      intros Hret; now injection Hret.
Qed.

(** X6: with a logger on a stream, [Push] writes the status and the raw
    body of every answer before it decodes the body, so also when the body
    does not decode; it keeps what the journal had. *)
Theorem Push_logs_the_answer_first
    (c : Client.t) (release : Release) (status : Z) (res : Go.bytes)
    (lg : Logger) (fd : nat) (j j' : Journal)
    (r : option (list string) * option error) :
  postBody c "release/push" release = (status, res, None) ->
  Client.Log c = Some lg ->
  out lg = io_Stream fd ->
  Push c release j = Return r j' ->
  exists rest,
    j' = (j ++ mkEntry fd
                 ("readarr release/push status: (%v) response: %v" +:+ Go.nl)
                 [VInt status; VString (Go.string_of_bytes res)] :: rest)%list
    /\ (length rest <= 1)%nat.
Proof.
  intros Hpost Hlog Hout. unfold Push. rewrite Hpost.
  unfold mbind, M_bind, bind, mret, M_ret, ret, Printf.
  rewrite Hlog, Hout. cbn.
  destruct (status =? Go.StatusBadRequest).
  - destruct (Unmarshal_BadRequestResponses res) as [l|e].
    + destruct (describe l [] _) as [reason|rs j1] eqn:Hdesc; [discriminate|].
      apply describe_keeps_journal in Hdesc.
      intros Hret. injection Hret as _ <-. subst j1.
      exists []. split; [reflexivity|cbn; lia].
    + intros Hret. injection Hret as _ <-.
      exists []. split; [reflexivity|cbn; lia].
  - destruct (Unmarshal_PushResponse res) as [p|e].
    + destruct (Rejected p); rewrite ?Hout; cbn.
      * intros Hret. injection Hret as _ <-.
        eexists [_]. split; [|cbn; lia].
        rewrite <- app_assoc. reflexivity.
      * intros Hret. injection Hret as _ <-.
        exists []. split; [reflexivity|cbn; lia].
    + intros Hret. injection Hret as _ <-.
      exists []. split; [reflexivity|cbn; lia].
Qed.

(** X7: [Test] answers a 401 with the credentials error for every body,
    before it logs: the journal is as it was and a client without a logger
    does not panic. *)
Theorem Test_unauthorized_for_every_body
    (c : Client.t) (res : Go.bytes) (j : Journal) :
  get c "system/status" = (Go.StatusUnauthorized, res, None) ->
  Test c j = Return (None, Some unauthorized) j.
Proof.
  intros Hget. unfold Test. rewrite Hget. reflexivity.
Qed.

(** X8: [Test] returns a status response exactly when the request was
    answered, the status is not 401 and the body decodes to that response;
    it then returns no error. *)
Theorem Test_returns_a_response_exactly_when
    (c : Client.t) (status : Z) (res : Go.bytes) (err : option error)
    (lg : Logger) (j : Journal) (response : SystemStatusResponse)
    (e : option error) :
  get c "system/status" = (status, res, err) ->
  Client.Log c = Some lg ->
  (exists j', Test c j = Return (Some response, e) j') <->
  err = None /\ status <> Go.StatusUnauthorized
  /\ Unmarshal_SystemStatusResponse res = inl response /\ e = None.
Proof.
  intros Hget Hlog. unfold Test. rewrite Hget.
  destruct err as [e0|].
  { split; [intros [j' Hret]; discriminate | intros [Herr _]; discriminate]. }
  destruct (status =? Go.StatusUnauthorized) eqn:Hstatus.
  - apply Z.eqb_eq in Hstatus. split.
    + intros [j' Hret]. discriminate.
    + intros (_ & Hne & _). contradiction.
  - apply Z.eqb_neq in Hstatus.
    unfold mbind, M_bind, bind, mret, M_ret, ret, Printf. rewrite Hlog.
    split.
    + intros [j' Hret].
      destruct (out lg); cbn in Hret;
        (destruct (Unmarshal_SystemStatusResponse res) as [r|e1];
         [|discriminate]);
        injection Hret as -> <- _; auto.
    + intros (_ & _ & Hdec & ->). rewrite Hdec.
      destruct (out lg); cbn; eauto.
Qed.

End PushFacts.

Lemma Push_error_excludes_rejections_witness :
  @Push (Fixture.collaborators Fixture.truncated)
    (New Fixture.config) Fixture.release []
  = Return (None, Some (errors_Wrap Fixture.syntax_error "could not unmarshal data")) []
  /\ @None (list string) = None.
Proof.
  split; [vm_compute; reflexivity|].
  apply (@Push_error_excludes_rejections
           (Fixture.collaborators Fixture.truncated)
           (New Fixture.config) Fixture.release [] [] None
           (errors_Wrap Fixture.syntax_error "could not unmarshal data")).
  vm_compute. reflexivity.
Defined.

Lemma Push_reads_every_other_status_alike_witness :
  returned (@Push (Recorded.by_title (Fixture.body "{'rejected': false}"))
              (New Fixture.config) (Fixture.mkRelease "retry") [])
  = returned (@Push (Recorded.by_title (Fixture.body "{'rejected': false}"))
                (New Fixture.config) Fixture.release []).
Proof.
  apply (@Push_reads_every_other_status_alike
           (Recorded.by_title (Fixture.body "{'rejected': false}"))
           (New Fixture.config) (Fixture.mkRelease "retry") Fixture.release
           500 200 (Fixture.body "{'rejected': false}") []).
  - reflexivity.
  - reflexivity.
  - discriminate.
  - discriminate.
Defined.

Lemma Push_returns_nothing_exactly_when_witness :
  exists j',
    @Push (Fixture.collaborators Recorded.flag_without_reasons)
      (New Fixture.config) Fixture.release []
    = Return (None, None) j'.
Proof.
  apply (proj2 (@Push_returns_nothing_exactly_when
                  (Fixture.collaborators Recorded.flag_without_reasons)
                  (New Fixture.config) Fixture.release 200
                  (Fixture.body "{'rejected': true}") None
                  (log_New io_Discard "" Go.LstdFlags) []
                  eq_refl eq_refl)).
  split; [reflexivity|]. split; [discriminate|].
  exists (mkPushResponse true None).
  split; [vm_compute; reflexivity|]. right. reflexivity.
Defined.

Lemma Push_panics_exactly_when_witness :
  exists reason,
    @Push (Fixture.collaborators Recorded.nil_rejection)
      (New Fixture.config) Fixture.release []
    = Panic reason.
Proof.
  apply (proj2 (@Push_panics_exactly_when
                  (Fixture.collaborators Recorded.nil_rejection)
                  (New Fixture.config) Fixture.release 400
                  (Fixture.body "[null]") None [] eq_refl)).
  split; [reflexivity|]. right. split; [reflexivity|].
  exists [None]. split; [vm_compute; reflexivity|]. now left.
Defined.

Lemma New_without_logger_is_silent_witness :
  exists j',
    @Push (Fixture.collaborators Fixture.rejected)
      (New Fixture.config) Fixture.release []
    = Return (Some ["a"; "b"], None) j'
    /\ j' = [].
Proof.
  eexists. split; [vm_compute; reflexivity|].
  apply (proj1 (@New_without_logger_is_silent
                  (Fixture.collaborators Fixture.rejected)
                  Fixture.config Fixture.release [] eq_refl)
           (Some ["a"; "b"], None) []).
  vm_compute. reflexivity.
Defined.

Lemma Push_logs_the_answer_first_witness :
  exists r j' rest,
    @Push (Fixture.collaborators Fixture.truncated)
      (New Fixture.logging_config) Fixture.release [] = Return r j'
    /\ j' = ([] ++ mkEntry 2
                     ("readarr release/push status: (%v) response: %v" +:+ Go.nl)
                     [VInt 200;
                      VString (Go.string_of_bytes (Fixture.body "{'rejected': tr"))]
                   :: rest)%list
    /\ (length rest <= 1)%nat.
Proof.
  eexists. eexists.
  assert (Hrun : @Push (Fixture.collaborators Fixture.truncated)
                   (New Fixture.logging_config) Fixture.release []
                 = Return (None, Some (errors_Wrap Fixture.syntax_error
                                         "could not unmarshal data"))
                     [mkEntry 2
                        ("readarr release/push status: (%v) response: %v" +:+ Go.nl)
                        [VInt 200;
                         VString (Go.string_of_bytes (Fixture.body "{'rejected': tr"))]])
    by (vm_compute; reflexivity).
  destruct (@Push_logs_the_answer_first
              (Fixture.collaborators Fixture.truncated)
              (New Fixture.logging_config) Fixture.release 200
              (Fixture.body "{'rejected': tr")
              (log_New (io_Stream 2) "readarr " Go.LstdFlags) 2 [] _ _
              eq_refl eq_refl eq_refl Hrun) as [rest [Hj Hlen]].
  exists rest. split; [exact Hrun|]. split; [exact Hj|exact Hlen].
Defined.

Lemma Test_unauthorized_for_every_body_witness :
  @Test (Fixture.collaborators Fixture.denied) (New Fixture.config) []
  = Return (None, Some unauthorized) [].
Proof.
  apply (@Test_unauthorized_for_every_body
           (Fixture.collaborators Fixture.denied) (New Fixture.config)
           (Fixture.body "{'error': 'Unauthorized'}") []).
  reflexivity.
Defined.

Lemma Test_returns_a_response_exactly_when_witness :
  exists j',
    @Test (Fixture.collaborators Recorded.system_status) (New Fixture.config) []
    = Return (Some (Fixture.mkStatus "0.3.10"), None) j'.
Proof.
  apply (proj2 (@Test_returns_a_response_exactly_when
                  (Fixture.collaborators Recorded.system_status)
                  (New Fixture.config) 200
                  (Fixture.body "{'appName': 'Readarr', 'version': '0.3.10'}")
                  None (log_New io_Discard "" Go.LstdFlags) []
                  (Fixture.mkStatus "0.3.10") None eq_refl eq_refl)).
  split; [reflexivity|]. split; [discriminate|].
  split; [vm_compute; reflexivity|reflexivity].
Defined.

(** * Properties of the catalogue requests *)

Section CatalogueFacts.

Context `{Catalogue}.

(** X9: the query of [GetBooks] has the key [titleSlug], with the one value
    [gridID], exactly when [gridID] is not empty, and never another key. *)
Theorem GetBooks_query_has_only_the_slug
    (gridID key : string) (values : list string) :
  GetBooks_params gridID !! key = Some values <->
  key = "titleSlug" /\ gridID <> "" /\ values = [gridID].
Proof.
  unfold GetBooks_params, Values_Set.
  destruct (String.eqb gridID "") eqn:Hempty; cbn [negb].
  - apply String.eqb_eq in Hempty. rewrite lookup_empty. split.
    + discriminate.
    + intros (_ & Hne & _). contradiction.
  - apply String.eqb_neq in Hempty.
    destruct (decide (key = "titleSlug")) as [->|Hkey].
    + rewrite lookup_insert_eq. split.
      * intros Hv. injection Hv as <-. auto.
      * intros (_ & _ & ->). reflexivity.
    + rewrite lookup_insert_ne by congruence. rewrite lookup_empty. split.
      * discriminate.
      * intros (Hk & _). contradiction.
Qed.

(** X10: [GetBooks] and [GetTags] never return data with an error: when
    [getJSON] fails, what it left in the slice is dropped and its error
    comes back wrapped, under the message of the tags request in both. *)
Theorem catalogue_error_excludes_data (c : Client.t) (gridID : string) :
  (forall data e,
     GetBooks c gridID = (data, Some e) ->
     data = None
     /\ exists cause partial,
          getJSON_Books c "book" (Some (GetBooks_params gridID)) (Some [])
          = (partial, Some cause)
          /\ e = errors_Wrap cause "could not get tags")
  /\ (forall data e,
        GetTags c = (data, Some e) ->
        data = None
        /\ exists cause partial,
             getJSON_Tags c "tag" None (Some []) = (partial, Some cause)
             /\ e = errors_Wrap cause "could not get tags").
Proof.
  split; intros data e.
  - unfold GetBooks.
    destruct (getJSON_Books c "book" _ _) as [partial [cause|]];
      intros Hret; [|discriminate].
    injection Hret as <- <-. eauto.
  - unfold GetTags.
    destruct (getJSON_Tags c "tag" _ _) as [partial [cause|]];
      intros Hret; [|discriminate].
    injection Hret as <- <-. eauto.
Qed.

End CatalogueFacts.

Lemma catalogue_error_excludes_data_witness :
  @GetBooks (Recorded.catalogue true) (New Fixture.config) "some-book"
  = (None, Some (errors_Wrap (errors_New "connection refused") "could not get tags"))
  /\ @None (list string) = None.
Proof.
  split; [reflexivity|].
  apply (proj1 (@catalogue_error_excludes_data
                  (Recorded.catalogue true) (New Fixture.config) "some-book")
           None
           (errors_Wrap (errors_New "connection refused") "could not get tags")).
  reflexivity.
Defined.

(** * The matcher finds only what the pattern describes *)

Section EngineFacts.

Import Regex.

Lemma append_assoc (a b c : string) : (a +:+ b) +:+ c = a +:+ (b +:+ c).
Proof.
  induction a as [|x a IH]; [reflexivity|].
  change (String x ((a +:+ b) +:+ c) = String x (a +:+ (b +:+ c))).
  now f_equal.
Qed.

Lemma length_append (a b : string) :
  String.length (a +:+ b) = (String.length a + String.length b)%nat.
Proof.
  induction a as [|x a IH]; [reflexivity|].
  change (S (String.length (a +:+ b)) = S (String.length a + String.length b)).
  now f_equal.
Qed.

Lemma substring_prefix (w s : string) :
  substring 0 (String.length w) (w +:+ s) = w.
Proof.
  induction w as [|x w IH].
  - now destruct s.
  - change (String x (substring 0 (String.length w) (w +:+ s)) = String x w).
    now f_equal.
Qed.

Lemma consumed_append (w s : string) : consumed (w +:+ s) s = w.
Proof.
  unfold consumed. rewrite length_append.
  replace (String.length w + String.length s - String.length s)%nat
    with (String.length w) by lia.
  apply substring_prefix.
Qed.

Lemma loop_is_sound (r : regex)
    (k : string -> captures -> option captures) (res : captures) :
  run_is_sound r ->
  forall (n : nat) (s : string) (c : captures),
    (fix loop (n : nat) (s : string) (c : captures) : option captures :=
       match n with
       | O => k s c
       | S n' =>
           match run r s c
                   (fun s' c' =>
                      if (String.length s' <? String.length s)%nat
                      then loop n' s' c' else None) with
           | Some res => Some res
           | None => k s c
           end
       end) n s c = Some res ->
    exists (w s' : string) (c' : captures),
      s = w +:+ s' /\ Matches (Star r) w c c' /\ k s' c' = Some res.
Proof.
  intros IH. induction n as [|n IHn]; intros s c Hloop.
  - exists EmptyString, s, c.
    repeat split; [apply Matches_Star_nil|exact Hloop].
  - match type of Hloop with
    | match ?call with _ => _ end = _ => destruct call as [res'|] eqn:Hcall
    end.
    + injection Hloop as ->.
      apply IH in Hcall as (w1 & s1 & c1 & -> & Hm1 & Hk).
      destruct (String.length s1 <? String.length (w1 +:+ s1))%nat;
        [|discriminate].
      apply IHn in Hk as (w2 & s2 & c2 & -> & Hm2 & Hk).
      exists (w1 +:+ w2), s2, c2. split; [now rewrite append_assoc|].
      split; [eapply Matches_Star_cons; eassumption|exact Hk].
    + exists EmptyString, s, c.
      repeat split; [apply Matches_Star_nil|exact Hloop].
Qed.

Lemma run_sound (r : regex) : run_is_sound r.
Proof.
  induction r as [a| | |r1 IH1 r2 IH2| |r1 IH1 r2 IH2|r1 IH1|r1 IH1|r1 IH1|i r1 IH1];
    intros s c k res Hrun; cbn [run] in Hrun.
  - destruct s as [|b s]; [discriminate|].
    destruct (Ascii.eqb a b) eqn:Hab; [|discriminate].
    apply Ascii.eqb_eq in Hab as <-.
    exists (String a EmptyString), s, c. repeat split; [constructor|exact Hrun].
  - destruct s as [|b s]; [discriminate|].
    destruct (is_newline b) eqn:Hb; [discriminate|].
    exists (String b EmptyString), s, c.
    repeat split; [now constructor|exact Hrun].
  - destruct s as [|b s]; [discriminate|].
    destruct (is_digit b) eqn:Hb; [|discriminate].
    exists (String b EmptyString), s, c.
    repeat split; [now constructor|exact Hrun].
  - apply IH1 in Hrun as (w1 & s1 & c1 & -> & Hm1 & Hrun).
    apply IH2 in Hrun as (w2 & s2 & c2 & -> & Hm2 & Hk).
    exists (w1 +:+ w2), s2, c2. split; [now rewrite append_assoc|].
    split; [eapply Matches_Seq; eassumption|exact Hk].
  - exists EmptyString, s, c. repeat split; [apply Matches_Eps|exact Hrun].
  - destruct (run r1 s c k) as [res'|] eqn:Hleft.
    + injection Hrun as ->.
      apply IH1 in Hleft as (w & s' & c' & -> & Hm & Hk).
      exists w, s', c'. repeat split; [now apply Matches_Alt_l|exact Hk].
    + apply IH2 in Hrun as (w & s' & c' & -> & Hm & Hk).
      exists w, s', c'. repeat split; [now apply Matches_Alt_r|exact Hk].
  - eapply loop_is_sound; eassumption.
  - apply IH1 in Hrun as (w1 & s1 & c1 & -> & Hm1 & Hrun).
    eapply loop_is_sound in Hrun as (w2 & s2 & c2 & -> & Hm2 & Hk);
      [|exact IH1].
    exists (w1 +:+ w2), s2, c2. split; [now rewrite append_assoc|].
    split; [eapply Matches_Plus; eassumption|exact Hk].
  - destruct (run r1 s c k) as [res'|] eqn:Hsome.
    + injection Hrun as ->.
      apply IH1 in Hsome as (w & s' & c' & -> & Hm & Hk).
      exists w, s', c'. repeat split; [now apply Matches_Opt_some|exact Hk].
    + exists EmptyString, s, c.
      repeat split; [apply Matches_Opt_none|exact Hrun].
  - apply IH1 in Hrun as (w & s' & c' & -> & Hm & Hk).
    rewrite consumed_append in Hk.
    exists w, s', (<[ i := w ]> c'). repeat split; [now constructor|exact Hk].
Qed.

(** A match found in a line is a match of the pattern on a part of the
    line, starting from empty captures. *)
Lemma find_sound (r : regex) (g : nat) :
  forall (s : string) (caps : captures),
    find r g s = Some caps ->
    exists before w after : string,
      s = before +:+ w +:+ after
      /\ Matches r w (replicate g EmptyString) caps.
Proof.
  induction s as [|b s IH]; intros caps Hfind; cbn [find] in Hfind.
  - destruct (match_here r g EmptyString) as [c0|] eqn:Hhere; [|discriminate].
    injection Hfind as ->. unfold match_here in Hhere.
    apply run_sound in Hhere as (w & s' & c' & Hs & Hm & Hk).
    injection Hk as ->. exists EmptyString, w, s'. now split.
  - destruct (match_here r g (String b s)) as [c0|] eqn:Hhere.
    + injection Hfind as ->. unfold match_here in Hhere.
      apply run_sound in Hhere as (w & s' & c' & Hs & Hm & Hk).
      injection Hk as ->. exists EmptyString, w, s'. now split.
    + apply IH in Hfind as (before & w & after & -> & Hm).
      exists (String b before), w, after. now split.
Qed.

End EngineFacts.

(** * What the PolishTracker definition takes from a line *)

Section AnnounceFacts.

Import Regex Indexer PolishTracker.

Lemma Matches_Lit_inv (a : ascii) (w : string) (c c' : captures) :
  Matches (Lit a) w c c' -> w = String a EmptyString /\ c' = c.
Proof.
  intros Hm. inversion Hm; subst. now split.
Qed.

Lemma Matches_literally (w : string) (r : regex) :
  forall (x : string) (c c' : captures),
    Matches (literally w r) x c c' ->
    exists y, x = w +:+ y /\ Matches r y c c'.
Proof.
  induction w as [|a w IH]; intros x c c' Hm; cbn [literally] in Hm.
  - exists x. now split.
  - inversion Hm as [| | | |r1 r2 w1 w2 c0 c1 c2 Hm1 Hm2| | | | | | | |]; subst.
    apply Matches_Lit_inv in Hm1 as [-> ->].
    apply IH in Hm2 as (y & -> & Hm2).
    exists y. now split.
Qed.

Lemma Matches_Seq_inv (r1 r2 : regex) (x : string) (c c' : captures) :
  Matches (Seq r1 r2) x c c' ->
  exists w1 w2 c1,
    x = w1 +:+ w2 /\ Matches r1 w1 c c1 /\ Matches r2 w2 c1 c'.
Proof.
  intros Hm. inversion Hm; subst. eauto 6.
Qed.

Lemma Matches_Group_inv (i : nat) (r : regex) (x : string) (c c' : captures) :
  Matches (Group i r) x c c' ->
  exists c1, Matches r x c c1 /\ c' = <[ i := x ]> c1.
Proof.
  intros Hm. inversion Hm; subst. eauto.
Qed.

Lemma has_newline_append (a b : string) :
  has_newline (a +:+ b) = has_newline a || has_newline b.
Proof.
  induction a as [|x a IH]; [reflexivity|].
  change (is_newline x || has_newline (a +:+ b)
          = is_newline x || has_newline a || has_newline b).
  rewrite IH. now rewrite orb_assoc.
Qed.

Lemma all_digits_append (a b : string) :
  all_digits (a +:+ b) = all_digits a && all_digits b.
Proof.
  induction a as [|x a IH]; [reflexivity|].
  change (is_digit x && all_digits (a +:+ b)
          = is_digit x && all_digits a && all_digits b).
  rewrite IH. now rewrite andb_assoc.
Qed.

(** [.*] takes text without a line feed and leaves the captures alone. *)
Lemma Matches_any_text (x : string) (c c' : captures) :
  Matches (Star AnyChar) x c c' -> c' = c /\ has_newline x = false.
Proof.
  intros Hm. remember (Star AnyChar) as r eqn:Hr.
  induction Hm as [| | | | | | | |r0 w1 w2 c0 c1 c2 Hm1 _ Hm2 IH2| | | |];
    try discriminate.
  - now split.
  - injection Hr as ->. destruct (IH2 eq_refl) as [-> Hw2].
    inversion Hm1 as [|b c3 Hb| | | | | | | | | | |]; subst.
    split; [reflexivity|].
    rewrite has_newline_append, Hw2. cbn. now rewrite Hb.
Qed.

Lemma Matches_digits_star (x : string) (c c' : captures) :
  Matches (Star Digit) x c c' -> c' = c /\ all_digits x = true.
Proof.
  intros Hm. remember (Star Digit) as r eqn:Hr.
  induction Hm as [| | | | | | | |r0 w1 w2 c0 c1 c2 Hm1 _ Hm2 IH2| | | |];
    try discriminate.
  - now split.
  - injection Hr as ->. destruct (IH2 eq_refl) as [-> Hw2].
    inversion Hm1 as [| |b c3 Hb| | | | | | | | | |]; subst.
    split; [reflexivity|].
    rewrite all_digits_append, Hw2. cbn. now rewrite Hb.
Qed.

(** [\d+] takes one digit or more and leaves the captures alone. *)
Lemma Matches_digits (x : string) (c c' : captures) :
  Matches (Plus Digit) x c c' ->
  c' = c /\ all_digits x = true /\ x <> EmptyString.
Proof.
  intros Hm. inversion Hm as [| | | | | | | | |r0 w1 w2 c0 c1 c2 Hm1 Hm2| | |]; subst.
  apply Matches_digits_star in Hm2 as [-> Hw2].
  inversion Hm1 as [| |b c3 Hb| | | | | | | | | |]; subst.
  split; [reflexivity|]. split; [|discriminate].
  rewrite all_digits_append, Hw2. cbn. now rewrite Hb.
Qed.

(** The definition validates to its one pattern, compiled. *)
Lemma polishtracker_compiled :
  exists v : ValidDefinition,
    validate polishtracker = inl v
    /\ compiled v
       = [mkCompiledLine polishtracker_regex 5
            ["torrentName"; "category"; "torrentSize"; "baseUrl"; "torrentId"]].
Proof.
  eexists. split; vm_compute; reflexivity.
Qed.

(** What a match of the pattern reads and captures. *)
Lemma Matches_polishtracker (x : string) (c c' : captures) :
  Matches polishtracker_regex x c c' ->
  exists name category size host id : string,
    x = "::: PolishTracker :::  Torrent ( " +:+ name
        +:+ " )  ||  Kategoria: ( " +:+ category
        +:+ " )  ||  Rozmiar: ( " +:+ size
        +:+ " )  ||  Link: ( " +:+ ("https://" +:+ host)
        +:+ "/torrents/" +:+ id +:+ " )"
    /\ c' = <[ 4%nat := id ]> (<[ 3%nat := "https://" +:+ host ]>
              (<[ 2%nat := size ]> (<[ 1%nat := category ]>
                 (<[ 0%nat := name ]> c))))
    /\ has_newline name = false /\ has_newline category = false
    /\ has_newline size = false /\ has_newline host = false
    /\ all_digits id = true /\ id <> EmptyString.
Proof.
  unfold polishtracker_regex. intros Hm.
  apply Matches_literally in Hm as (y1 & -> & Hm).
  apply Matches_Seq_inv in Hm as (name & y2 & c1 & -> & Hg & Hm).
  apply Matches_Group_inv in Hg as (c1' & Hname & ->).
  apply Matches_any_text in Hname as [-> Hname].
  apply Matches_literally in Hm as (y3 & -> & Hm).
  apply Matches_Seq_inv in Hm as (category & y4 & c2 & -> & Hg & Hm).
  apply Matches_Group_inv in Hg as (c2' & Hcat & ->).
  apply Matches_any_text in Hcat as [-> Hcat].
  apply Matches_literally in Hm as (y5 & -> & Hm).
  apply Matches_Seq_inv in Hm as (size & y6 & c3 & -> & Hg & Hm).
  apply Matches_Group_inv in Hg as (c3' & Hsize & ->).
  apply Matches_any_text in Hsize as [-> Hsize].
  apply Matches_literally in Hm as (y7 & -> & Hm).
  apply Matches_Seq_inv in Hm as (base & y8 & c4 & -> & Hg & Hm).
  apply Matches_Group_inv in Hg as (c4' & Hbase & ->).
  apply Matches_literally in Hbase as (host & -> & Hhost).
  apply Matches_any_text in Hhost as [-> Hhost].
  apply Matches_literally in Hm as (y9 & -> & Hm).
  apply Matches_Seq_inv in Hm as (id & y10 & c5 & -> & Hg & Hm).
  apply Matches_Group_inv in Hg as (c5' & Hid & ->).
  apply Matches_digits in Hid as (-> & Hdigits & Hid).
  apply Matches_literally in Hm as (y11 & -> & Hm).
  apply Matches_Lit_inv in Hm as [-> ->].
  exists name, category, size, host, id.
  repeat (split; [first [reflexivity | assumption]|]). assumption.
Qed.

(** A line the definition matches, taken apart. *)
Lemma matched_line_inv (line : string) (m : gmap string string) :
  process polishtracker line = Yields (Matched m) ->
  exists name category size host id before after : string,
    line = before +:+ "::: PolishTracker :::  Torrent ( " +:+ name
           +:+ " )  ||  Kategoria: ( " +:+ category
           +:+ " )  ||  Rozmiar: ( " +:+ size
           +:+ " )  ||  Link: ( " +:+ ("https://" +:+ host)
           +:+ "/torrents/" +:+ id +:+ " )" +:+ after
    /\ m = list_to_map
             [ ("torrentName", name); ("category", category);
               ("torrentSize", size); ("baseUrl", "https://" +:+ host);
               ("torrentId", id) ]
    /\ has_newline name = false /\ has_newline category = false
    /\ has_newline size = false /\ has_newline host = false
    /\ all_digits id = true /\ id <> EmptyString.
Proof.
  destruct polishtracker_compiled as (v & Hv & Hc).
  unfold process. rewrite Hv. unfold match_line. rewrite Hc.
  cbn [first_match re groups names].
  destruct (find polishtracker_regex 5 line) as [caps|] eqn:Hfind;
    [|discriminate].
  intros Hm. injection Hm as <-.
  apply find_sound in Hfind as (before & w & after & -> & Hw).
  apply Matches_polishtracker in Hw
    as (name & category & size & host & id & -> & -> & Hrest).
  exists name, category, size, host, id, before, after.
  split; [now rewrite !append_assoc|].
  split; [reflexivity|exact Hrest].
Qed.

(** X11: a line the definition matches has the announce in it, and the
    variables are its parts: the five declared names and no other, bound to
    the texts between the fixed words of the announce; the torrent number
    is one decimal digit or more, the base address begins with [https://],
    and no value holds a line feed. *)
Theorem matched_line_has_the_announce_in_it
    (line : string) (m : gmap string string) :
  process polishtracker line = Yields (Matched m) ->
  exists name category size host id before after : string,
    line = before +:+ "::: PolishTracker :::  Torrent ( " +:+ name
           +:+ " )  ||  Kategoria: ( " +:+ category
           +:+ " )  ||  Rozmiar: ( " +:+ size
           +:+ " )  ||  Link: ( " +:+ ("https://" +:+ host)
           +:+ "/torrents/" +:+ id +:+ " )" +:+ after
    /\ m = list_to_map
             [ ("torrentName", name); ("category", category);
               ("torrentSize", size); ("baseUrl", "https://" +:+ host);
               ("torrentId", id) ]
    /\ has_newline name = false /\ has_newline category = false
    /\ has_newline size = false /\ has_newline host = false
    /\ all_digits id = true /\ id <> EmptyString.
Proof.
  exact (matched_line_inv line m).
Qed.

(** X12: for every line the definition matches and every setting of the
    RSS key, the [torrenturl] template renders without an error to the
    captured base address, [/downrss/], the key, [/] and the captured
    torrent number, which is all digits. *)
Theorem matched_line_renders_its_download_link
    (line : string) (m settings : gmap string string) (key : string) :
  process polishtracker line = Yields (Matched m) ->
  settings !! "rsskey" = Some key ->
  exists host id : string,
    m !! "baseUrl" = Some ("https://" +:+ host)
    /\ m !! "torrentId" = Some id
    /\ all_digits id = true /\ id <> EmptyString
    /\ Template.render torrenturl m settings
       = inl ("https://" +:+ host +:+ "/downrss/" +:+ key +:+ "/" +:+ id).
Proof.
  intros Hm Hkey.
  apply matched_line_inv in Hm
    as (name & category & size & host & id & before & after
        & _ & -> & _ & _ & _ & _ & Hdigits & Hid).
  exists host, id.
  assert (Hbase : (list_to_map
             [ ("torrentName", name); ("category", category);
               ("torrentSize", size); ("baseUrl", "https://" +:+ host);
               ("torrentId", id) ] : gmap string string) !! "baseUrl"
          = Some ("https://" +:+ host)) by reflexivity.
  assert (Hnum : (list_to_map
             [ ("torrentName", name); ("category", category);
               ("torrentSize", size); ("baseUrl", "https://" +:+ host);
               ("torrentId", id) ] : gmap string string) !! "torrentId"
          = Some id) by reflexivity.
  assert (Hnone : (list_to_map
             [ ("torrentName", name); ("category", category);
               ("torrentSize", size); ("baseUrl", "https://" +:+ host);
               ("torrentId", id) ] : gmap string string) !! "rsskey"
          = None) by reflexivity.
  split; [exact Hbase|]. split; [exact Hnum|].
  split; [exact Hdigits|]. split; [exact Hid|].
  rewrite (torrenturl_renders _ settings _ key id Hbase Hnum Hnone Hkey).
  now rewrite append_assoc.
Qed.

End AnnounceFacts.

(** * The matcher finds every announce *)

Section CompletenessFacts.

Import Regex Indexer PolishTracker.

Lemma run_Star_unfold (r : regex) (s : string) (c : captures)
    (k : string -> captures -> option captures) :
  run (Star r) s c k = star_loop r k (String.length s) s c.
Proof.
  reflexivity.
Qed.

Lemma run_Plus_unfold (r : regex) (s : string) (c : captures)
    (k : string -> captures -> option captures) :
  run (Plus r) s c k = run r s c (star_loop r k (String.length s)).
Proof.
  reflexivity.
Qed.

Lemma length_zero (s : string) : String.length s = 0%nat -> s = EmptyString.
Proof.
  now destruct s.
Qed.

Lemma run_complete (r : regex) (w : string) (c0 c1 : captures) :
  Matches r w c0 c1 -> run_is_complete r w.
Proof.
  intros Hm.
  induction Hm as
    [a c0|b c0 Hb|b c0 Hb|c0
    |r1 r2 w1 w2 c0 c1 c2 _ IH1 _ IH2
    |r1 r2 w c0 c1 _ IH|r1 r2 w c0 c1 _ IH
    |r c0|r w1 w2 c0 c1 c2 _ IH1 _ IH2
    |r w1 w2 c0 c1 c2 _ IH1 _ IH2
    |r w c0 c1 _ IH|r c0|i r w c0 c1 _ IH];
    intros s' c k Hk.
  - split; [|discriminate].
    change (String a EmptyString +:+ s') with (String a s'). cbn [run].
    rewrite Ascii.eqb_refl. apply Hk.
  - split; [|discriminate].
    change (String b EmptyString +:+ s') with (String b s'). cbn [run].
    rewrite Hb. apply Hk.
  - split; [|discriminate].
    change (String b EmptyString +:+ s') with (String b s'). cbn [run].
    rewrite Hb. apply Hk.
  - split; [|discriminate]. apply Hk.
  - split; [|discriminate]. rewrite append_assoc. cbn [run].
    apply IH1. intros c'. apply IH2, Hk.
  - split; [|discriminate]. cbn [run].
    destruct (proj1 (IH s' c k Hk)) as [res ->]. eauto.
  - split; [|discriminate]. cbn [run].
    destruct (run r1 (w +:+ s') c k); [eauto|]. apply IH, Hk.
  - assert (Hloop : forall n, exists res, star_loop r k n s' c = Some res).
    { intros [|n]; cbn [star_loop]; [apply Hk|].
      destruct (run r s' c _); [eauto|apply Hk]. }
    split.
    + rewrite run_Star_unfold. apply Hloop.
    + intros r0 Hr n _. injection Hr as <-. apply Hloop.
  - assert (Hloop : forall n, (String.length ((w1 +:+ w2) +:+ s') <= n)%nat ->
                    exists res, star_loop r k n ((w1 +:+ w2) +:+ s') c = Some res).
    { intros n Hn. destruct w1 as [|x w1].
      - apply (proj2 (IH2 s' c k Hk) r eq_refl n Hn).
      - rewrite append_assoc in *.
        assert (Hlen : String.length (String x w1 +:+ w2 +:+ s')
                       = S (String.length w1 + String.length (w2 +:+ s')))
          by (rewrite (length_append (String x w1)); reflexivity).
        destruct n as [|n]; [lia|].
        change (star_loop r k (S n) (String x w1 +:+ w2 +:+ s') c)
          with (match run r (String x w1 +:+ w2 +:+ s') c
                        (fun s1 c1 =>
                           if (String.length s1
                               <? String.length (String x w1 +:+ w2 +:+ s'))%nat
                           then star_loop r k n s1 c1 else None) with
                | Some res => Some res
                | None => k (String x w1 +:+ w2 +:+ s') c
                end).
        match goal with
        | |- context [run r _ c ?kk] =>
            assert (Hkk : forall c', exists res, kk (w2 +:+ s') c' = Some res);
              [|destruct (proj1 (IH1 (w2 +:+ s') c kk Hkk)) as [res ->]; eauto]
        end.
        intros c'. cbv beta.
        replace (String.length (w2 +:+ s')
                 <? String.length (String x w1 +:+ w2 +:+ s'))%nat
          with true by (symmetry; apply Nat.ltb_lt; lia).
        apply (proj2 (IH2 s' c' k Hk) r eq_refl n). lia. }
    split.
    + rewrite run_Star_unfold. apply Hloop. lia.
    + intros r0 Hr n Hn. injection Hr as <-. apply Hloop, Hn.
  - split; [|discriminate]. rewrite append_assoc, run_Plus_unfold.
    apply IH1. intros c'.
    apply (proj2 (IH2 s' c' k Hk) r eq_refl).
    rewrite (length_append w1). lia.
  - split; [|discriminate]. cbn [run].
    destruct (proj1 (IH s' c k Hk)) as [res ->]. eauto.
  - split; [|discriminate]. cbn [run].
    change (EmptyString +:+ s') with s'.
    destruct (run r s' c k); [eauto|apply Hk].
  - split; [|discriminate]. cbn [run]. apply IH. intros c'. apply Hk.
Qed.

Lemma find_unfold (r : regex) (g : nat) (s : string) :
  find r g s
  = match match_here r g s with
    | Some c => Some c
    | None =>
        match s with
        | EmptyString => None
        | String _ s' => find r g s'
        end
    end.
Proof.
  now destruct s.
Qed.

(** A part of the line that the pattern matches is found, wherever it is;
    the match found may be another one. *)
Lemma find_complete (r : regex) (g : nat) (w : string) (c0 c1 : captures)
    (after : string) :
  Matches r w c0 c1 ->
  forall before : string,
    exists caps, find r g (before +:+ w +:+ after) = Some caps.
Proof.
  intros Hm. induction before as [|b before IH].
  - change (EmptyString +:+ w +:+ after) with (w +:+ after).
    rewrite find_unfold. unfold match_here.
    destruct (proj1 (run_complete r w c0 c1 Hm after
                       (replicate g EmptyString) (fun _ c => Some c)
                       ltac:(eauto))) as [res ->].
    eauto.
  - change (String b before +:+ w +:+ after)
      with (String b (before +:+ w +:+ after)).
    rewrite find_unfold.
    destruct (match_here r g (String b (before +:+ w +:+ after)));
      [eauto|exact IH].
Qed.

Lemma Matches_literally_intro (w : string) (r : regex) (y : string)
    (c c' : captures) :
  Matches r y c c' -> Matches (literally w r) (w +:+ y) c c'.
Proof.
  intros Hm. induction w as [|a w IH]; [exact Hm|].
  change (Matches (Seq (Lit a) (literally w r))
            (String a EmptyString +:+ (w +:+ y)) c c').
  eapply Matches_Seq; [apply Matches_Lit|exact IH].
Qed.

Lemma Matches_any_text_intro (x : string) (c : captures) :
  has_newline x = false -> Matches (Star AnyChar) x c c.
Proof.
  induction x as [|b x IH]; intros Hx; [apply Matches_Star_nil|].
  cbn in Hx. apply orb_false_iff in Hx as [Hb Hx].
  change (Matches (Star AnyChar) (String b EmptyString +:+ x) c c).
  eapply Matches_Star_cons; [now apply Matches_AnyChar|now apply IH].
Qed.

Lemma Matches_digits_intro (x : string) (c : captures) :
  all_digits x = true -> x <> EmptyString -> Matches (Plus Digit) x c c.
Proof.
  assert (Hstar : forall y, all_digits y = true -> Matches (Star Digit) y c c).
  { induction y as [|b y IH]; intros Hy; [apply Matches_Star_nil|].
    cbn in Hy. apply andb_true_iff in Hy as [Hb Hy].
    change (Matches (Star Digit) (String b EmptyString +:+ y) c c).
    eapply Matches_Star_cons; [now apply Matches_Digit|now apply IH]. }
  destruct x as [|b x]; intros Hx Hne; [contradiction|].
  cbn in Hx. apply andb_true_iff in Hx as [Hb Hx].
  change (Matches (Plus Digit) (String b EmptyString +:+ x) c c).
  eapply Matches_Plus; [now apply Matches_Digit|now apply Hstar].
Qed.

Lemma Matches_announce (name category size host id : string) (c : captures) :
  has_newline name = false -> has_newline category = false ->
  has_newline size = false -> has_newline host = false ->
  all_digits id = true -> id <> EmptyString ->
  exists c',
    Matches polishtracker_regex (announce name category size host id) c c'.
Proof.
  intros Hname Hcat Hsize Hhost Hdigits Hid.
  eexists. unfold polishtracker_regex, announce.
  apply Matches_literally_intro.
  eapply Matches_Seq;
    [apply Matches_Group, Matches_any_text_intro, Hname|].
  apply Matches_literally_intro.
  eapply Matches_Seq;
    [apply Matches_Group, Matches_any_text_intro, Hcat|].
  apply Matches_literally_intro.
  eapply Matches_Seq;
    [apply Matches_Group, Matches_any_text_intro, Hsize|].
  apply Matches_literally_intro.
  eapply Matches_Seq;
    [apply Matches_Group, Matches_literally_intro,
       Matches_any_text_intro, Hhost|].
  apply Matches_literally_intro.
  eapply Matches_Seq;
    [apply Matches_Group, Matches_digits_intro; assumption|].
  apply (Matches_literally_intro " " (Lit ")") (String ")" EmptyString)).
  apply Matches_Lit.
Qed.

(** X13: the definition matches a line exactly when the line has, anywhere
    in it, an announce of the bot: the fixed words with two spaces between
    the parts, a name, a category, a size and a host without a line feed,
    and a torrent number of one digit or more.  Text before and after the
    announce does not prevent the match. *)
Theorem line_is_matched_exactly_when_it_has_an_announce (line : string) :
  (exists m, process polishtracker line = Yields (Matched m)) <->
  exists name category size host id before after : string,
    line = before +:+ announce name category size host id +:+ after
    /\ has_newline name = false /\ has_newline category = false
    /\ has_newline size = false /\ has_newline host = false
    /\ all_digits id = true /\ id <> EmptyString.
Proof.
  split.
  - intros [m Hm].
    apply matched_line_inv in Hm
      as (name & category & size & host & id & before & after
          & -> & _ & Hrest).
    exists name, category, size, host, id, before, after.
    split; [|exact Hrest].
    unfold announce. now rewrite !append_assoc.
  - intros (name & category & size & host & id & before & after
            & -> & Hname & Hcat & Hsize & Hhost & Hdigits & Hid).
    destruct (Matches_announce name category size host id
                (replicate 5 EmptyString) Hname Hcat Hsize Hhost Hdigits Hid)
      as [c' Hm].
    destruct (find_complete _ 5 _ _ _ after Hm before) as [caps Hfind].
    destruct polishtracker_compiled as (v & Hv & Hc).
    unfold process. rewrite Hv. unfold match_line. rewrite Hc.
    cbn [first_match re groups names]. rewrite Hfind. eauto.
Qed.

End CompletenessFacts.

Lemma matched_line_has_the_announce_in_it_witness :
  exists name category size host id before after : string,
    PolishTracker.announced_line
    = before +:+ "::: PolishTracker :::  Torrent ( " +:+ name
      +:+ " )  ||  Kategoria: ( " +:+ category
      +:+ " )  ||  Rozmiar: ( " +:+ size
      +:+ " )  ||  Link: ( " +:+ ("https://" +:+ host)
      +:+ "/torrents/" +:+ id +:+ " )" +:+ after
    /\ PolishTracker.documented_variables
       = list_to_map
           [ ("torrentName", name); ("category", category);
             ("torrentSize", size); ("baseUrl", "https://" +:+ host);
             ("torrentId", id) ]
    /\ has_newline name = false /\ has_newline category = false
    /\ has_newline size = false /\ has_newline host = false
    /\ all_digits id = true /\ id <> EmptyString.
Proof.
  apply (matched_line_has_the_announce_in_it
           PolishTracker.announced_line PolishTracker.documented_variables).
  vm_compute. reflexivity.
Defined.

Lemma matched_line_renders_its_download_link_witness :
  exists host id : string,
    PolishTracker.documented_variables !! "baseUrl" = Some ("https://" +:+ host)
    /\ PolishTracker.documented_variables !! "torrentId" = Some id
    /\ all_digits id = true /\ id <> EmptyString
    /\ Template.render PolishTracker.torrenturl
         PolishTracker.documented_variables {[ "rsskey" := "ABC123" ]}
       = inl ("https://" +:+ host +:+ "/downrss/" +:+ "ABC123" +:+ "/" +:+ id).
Proof.
  apply (matched_line_renders_its_download_link
           PolishTracker.announced_line PolishTracker.documented_variables
           {[ "rsskey" := "ABC123" ]} "ABC123").
  - vm_compute. reflexivity.
  - reflexivity.
Defined.

(** * The rejection flag and the timeout, revisited *)




Lemma New_timeout (config : Config.t) :
  Timeout (Client.http (New config)) = 120 * 1000000000.
Proof.
  unfold New. now destruct (Config.Log config).
Qed.

(** C6: the requests of every client built by [New] run under the timeout
    of its HTTP client, which is 120 seconds, two minutes.  So [Push]
    comes back against every downstream, also one that never answers; one
    that does not answer within the 120 seconds is returned as an error
    with no rejections, which reads as an error; and one that answers in
    time is read as [Push] reads its answer. *)
Theorem New_client_never_hangs (base : Collaborators) (config : Config.t)
    (d : Downstream) (release : @Release base) (j : Journal) :
  Timeout (Client.http (New config)) = Go.mul64 Go.Second 120
  /\ Timeout (Client.http (New config)) = Go.mul64 2 Go.Minute
  /\ (exists r, Push_through base d (New config) release j = Completes r)
  /\ (d = Silent
      \/ (exists delay status body,
            d = Answers delay status body
            /\ Timeout (Client.http (New config)) <= delay) ->
      Push_through base d (New config) release j
      = Completes
          (Return
             (None,
              Some (errors_Wrap deadline_exceeded
                      "could not push release to readarr")) j)
      /\ outcome
           (None,
            Some (errors_Wrap deadline_exceeded
                    "could not push release to readarr"))
         = Error (errors_Wrap deadline_exceeded
                    "could not push release to readarr"))
  /\ (forall delay status body,
        d = Answers delay status body ->
        delay < Timeout (Client.http (New config)) ->
        Push_through base d (New config) release j
        = Completes
            (@Push (answered base (status, body, None))
               (New config) release j)).
Proof.
  pose proof (New_timeout config) as HT.
  split; [rewrite HT; reflexivity|].
  split; [rewrite HT; reflexivity|].
  unfold Push_through, transport_call. rewrite HT.
  change (0 <? 120 * 1000000000) with true. cbv iota.
  split; [|split].
  - destruct d as [delay status body|];
      [destruct (delay <? 120 * 1000000000)|]; eauto.
  - intros [->|(delay & status & body & -> & Hlate)]; (split; [|reflexivity]).
    + reflexivity.
    + apply Z.ltb_ge in Hlate. rewrite Hlate. reflexivity.
  - intros delay status body -> Hearly.
    apply Z.ltb_lt in Hearly. rewrite Hearly. reflexivity.
Qed.

(** Without the timeout the same request never comes back from a
    downstream that does not answer. *)
Lemma client_without_timeout_hangs (base : Collaborators) (config : Config.t)
    (release : @Release base) (j : Journal) :
  Push_through base Silent (without_timeout (New config)) release j = Hangs.
Proof.
  reflexivity.
Qed.

Lemma New_client_never_hangs_witness :
  Push_through (Fixture.collaborators Fixture.accepted) Silent
    (New Fixture.config) Fixture.release []
  = Completes
      (Return
         (None,
          Some (errors_Wrap deadline_exceeded
                  "could not push release to readarr")) [])
  /\ Push_through (Fixture.collaborators Fixture.accepted)
       (Answers (3 * Go.Minute) 200 (Fixture.body "{'rejected': false}"))
       (New Fixture.config) Fixture.release []
     = Completes
         (Return
            (None,
             Some (errors_Wrap deadline_exceeded
                     "could not push release to readarr")) [])
  /\ Push_through (Fixture.collaborators Fixture.accepted)
       (Answers (30 * Go.Second) 200 (Fixture.body "{'rejected': false}"))
       (New Fixture.config) Fixture.release []
     = Completes (Return (None, None) []).
Proof.
  split; [|split].
  - apply (proj1 (proj2 (proj2 (proj2
             (New_client_never_hangs (Fixture.collaborators Fixture.accepted)
                Fixture.config Silent Fixture.release []))))).
    now left.
  - apply (proj1 (proj2 (proj2 (proj2
             (New_client_never_hangs (Fixture.collaborators Fixture.accepted)
                Fixture.config
                (Answers (3 * Go.Minute) 200 (Fixture.body "{'rejected': false}"))
                Fixture.release []))))).
    right. exists (3 * Go.Minute), 200, (Fixture.body "{'rejected': false}").
    split; [reflexivity|]. vm_compute. discriminate.
  - rewrite (proj2 (proj2 (proj2 (proj2
               (New_client_never_hangs (Fixture.collaborators Fixture.accepted)
                  Fixture.config
                  (Answers (30 * Go.Second) 200 (Fixture.body "{'rejected': false}"))
                  Fixture.release []))))
               (30 * Go.Second) 200 (Fixture.body "{'rejected': false}")
               eq_refl eq_refl).
    vm_compute. reflexivity.
Defined.
